(** * tidypath: removing duplicate and undefined entries from path lists

    A shallow embedding of [tidypath.py] and the proofs of its
    specification.  The embedding follows the source function by
    function: [err], [get_canon], [is_dup], [exists], [report],
    [process] and [main].  The interpreter's library ([str.split],
    [str.join], [str.format], [os.path]) is modelled in the first
    modules; the operating system (environment table, working
    directory, file system) is a record every function takes. *)

From Stdlib Require Import Ascii String List Arith Lia Bool.
From Stdlib Require Import Numbers.DecimalString.
From stdpp Require Import base tactics option list gmap sets strings.

Local Open Scope string_scope.
Set Warnings "-clear-no-such-hyp".

(** ** Python strings *)

Module Py.

(** The line terminator [print] appends, and the escape character of
    the colour sequences. *)
Definition nl : string := String (ascii_of_nat 10) EmptyString.
Definition esc : string := String (ascii_of_nat 27) EmptyString.

(** [s.split(sep)] for a separator of one character: never an empty
    list, the empty string gives one empty field. *)
Fixpoint split (sep : ascii) (s : string) : list string :=
  match s with
  | EmptyString => [EmptyString]
  | String c s' =>
      if Ascii.eqb c sep then EmptyString :: split sep s'
      else match split sep s' with
           | [] => [String c EmptyString]
           | w :: ws => String c w :: ws
           end
  end.

(** [sep.join(l)]. *)
Fixpoint join (sep : string) (l : list string) : string :=
  match l with
  | [] => EmptyString
  | [x] => x
  | x :: xs => x +:+ sep +:+ join sep xs
  end.

(** [str(n)] for a non-negative integer. *)
Definition str (n : nat) : string := NilEmpty.string_of_uint (Nat.to_uint n).

(** [c * n] for a character. *)
Fixpoint times (c : ascii) (n : nat) : string :=
  match n with
  | O => EmptyString
  | S n' => String c (times c n')
  end.

(** ['{:>w}'.format(x)]: right-aligned in a field of [w] characters,
    never truncated. *)
Definition rjust (w : nat) (s : string) : string :=
  times " "%char (w - String.length s) +:+ s.

(** [c in s] for a character. *)
Fixpoint contains (c : ascii) (s : string) : bool :=
  match s with
  | EmptyString => false
  | String a s' => Ascii.eqb a c || contains c s'
  end.

(** [s.startswith(p)]. *)
Fixpoint startswith (p s : string) : bool :=
  match p, s with
  | EmptyString, _ => true
  | String a p', String b s' => Ascii.eqb a b && startswith p' s'
  | String _ _, EmptyString => false
  end.

(** [s.endswith(c)] for one character. *)
Fixpoint endswith (c : ascii) (s : string) : bool :=
  match s with
  | EmptyString => false
  | String a EmptyString => Ascii.eqb a c
  | String _ s' => endswith c s'
  end.

(** [s.rstrip(c)] for one character. *)
Fixpoint rstrip (c : ascii) (s : string) : string :=
  match s with
  | EmptyString => EmptyString
  | String a s' =>
      match rstrip c s' with
      | EmptyString => if Ascii.eqb a c then EmptyString else String a EmptyString
      | r => String a r
      end
  end.

End Py.

(** ** The operating system, as the program sees it

    [os.environ], [os.pathsep] and the three [os.path] functions the
    program calls.  The three functions read the working directory, the
    home directories and the file system, which do not change while the
    program runs. *)

Record os := {
  environ : gmap string string;
  pathsep : ascii;
  path_expanduser : string → string;
  path_abspath : string → string;
  path_exists : string → bool;
}.

(** The namespace [argparse] returns; [list_] is the option
    [-l/--list]. *)
Record options := {
  color : bool;
  list_ : bool;
  list_report : bool;
  silent : bool;
  undefined : bool;
  ENV_VARS : list string;
}.

(** The two output streams, and how a call ends: it returns, or
    [sys.exit] raises [SystemExit] with an exit code. *)
Record streams := { stdout : string; stderr : string }.

Inductive outcome := Return | SystemExit (code : nat).

Definition write_out (s : string) (io : streams) : streams :=
  {| stdout := stdout io +:+ s; stderr := stderr io |}.

Definition write_err (s : string) (io : streams) : streams :=
  {| stdout := stdout io; stderr := stderr io +:+ s |}.

(** [print(s)]. *)
Definition print (s : string) (io : streams) : streams :=
  write_out (s +:+ Py.nl) io.

(** The local variables of [report] that its loop updates. *)
Record report_vars := {
  dups : gmap string bool;
  numu : nat;
  numd : nat;
  numf : nat;
  numk : nat;
}.

(** The colour strings [report] chooses before its loop. *)
Record palette := { crb : string; cgb : string; crs : string; cuc : string }.

Section Tidypath.

Context (sys : os).

(** [err(msg, level=1, exit_code=1, out=sys.stderr)].  [lineno] is
    [inspect.stack()[level][2]], the line of the caller's frame. *)
Definition err (lineno : nat) (msg : string) (exit_code : nat) (io : streams)
  : outcome * streams :=
  let io := write_err (Py.esc +:+ "[31;1m") io in
  let io := write_err "ERROR:" io in
  let io := write_err (Py.str lineno +:+ ":") io in
  let io := write_err (Py.esc +:+ "[0;31m") io in
  let io := write_err (" " +:+ msg) io in
  let io := write_err (Py.esc +:+ "[0m") io in
  let io := write_err Py.nl io in
  (SystemExit exit_code, io).

Definition get_canon (comp : string) : string :=
  path_abspath sys (path_expanduser sys comp).

(** [is_dup(dups, comp)]: the answer and the dictionary after the
    call. *)
Definition is_dup (dups : gmap string bool) (comp : string)
  : bool * gmap string bool :=
  let canon := get_canon comp in
  match dups !! canon with
  | Some _ => (true, dups)
  | None => (false, <[canon := true]> dups)
  end.

(** [exists(comp)]. *)
Definition exists_ (comp : string) : bool :=
  let canon := get_canon comp in
  path_exists sys canon.

Definition report_palette (opts : options) : palette :=
  if color opts then
    let crb := Py.esc +:+ "[31;1m" in
    let cgb := Py.esc +:+ "[32;1m" in
    let crs := Py.esc +:+ "[0m" in
    {| crb := crb; cgb := cgb; crs := crs;
       cuc := if undefined opts then crb else cgb |}
  else
    {| crb := EmptyString; cgb := EmptyString; crs := EmptyString;
       cuc := EmptyString |}.

(** One turn of the loop of [report], on the [i]-th component. *)
Definition report_iter (opts : options) (p : palette) (i : nat) (comp : string)
    (st : report_vars * streams) : report_vars * streams :=
  let '(v, io) := st in
  let io := write_out (Py.rjust 4 (Py.str i)) io in
  let kept := false in
  let '(d, dups') := is_dup (dups v) comp in
  let '(io, numd', numf', kept) :=
    if d then
      (write_out (" " +:+ crb p +:+ "d" +:+ crs p) io,
       numd v + 1, numf v + 1, kept)
    else
      (write_out (" " +:+ cgb p +:+ "u" +:+ crs p) io,
       numd v, numf v, true) in
  let '(io, numu', numf', kept) :=
    if exists_ comp then
      (write_out (cgb p +:+ "e" +:+ crs p) io, numu v, numf', true)
    else
      let numu' := numu v + 1 in
      let numf' := if undefined opts then numf' + 1 else numf' in
      (write_out (cuc p +:+ "n" +:+ crs p) io, numu', numf', kept) in
  let numk' := if kept then numk v + 1 else numk v in
  let io := write_out (" " +:+ comp) io in
  let io := write_out Py.nl io in
  ({| dups := dups'; numu := numu'; numd := numd'; numf := numf';
      numk := numk' |}, io).

(** [for i, comp in enumerate(comps, start=i)]. *)
Fixpoint report_loop (opts : options) (p : palette) (i : nat)
    (comps : list string) (st : report_vars * streams)
  : report_vars * streams :=
  match comps with
  | [] => st
  | comp :: rest =>
      report_loop opts p (S i) rest (report_iter opts p i comp st)
  end.

(** The text after the loop: the key and the summary. *)
Definition report_summary (numk numf numd numu : nat) (p : palette) : string :=
  String.concat EmptyString [
    Py.nl;
    "Key:"; Py.nl;
    "     "; cgb p; "u"; crs p; cgb p; "e   ";
      cgb p; "u"; crs p; "nique, "; cgb p; "e"; crs p; "xists"; Py.nl;
    "     "; crb p; "d"; crs p; cgb p; "e   ";
      crb p; "d"; crs p; "uplicate, "; cgb p; "e"; crs p; "xists"; Py.nl;
    "     "; cgb p; "u"; crs p; cuc p; "n   ";
      cgb p; "u"; crs p; "nique, does "; cuc p; "n"; crs p; "ot exist"; Py.nl;
    "     "; crb p; "d"; crs p; cuc p; "n   ";
      crb p; "d"; crs p; "uplicate, does "; cuc p; "n"; crs p; "ot exist"; Py.nl;
    Py.nl;
    "Summary:"; Py.nl;
    "    Num Kept       : "; Py.rjust 2 (Py.str numk); Py.nl;
    "    Num Filtered   : "; Py.rjust 2 (Py.str numf); Py.nl;
    "    Num Duplicates : "; Py.rjust 2 (Py.str numd); Py.nl;
    "    Num Undefined  : "; Py.rjust 2 (Py.str numu)
  ].

Definition report_init : report_vars :=
  {| dups := ∅; numu := 0; numd := 0; numf := 0; numk := 0 |}.

(** The values of the local variables when the loop of [report] ends. *)
Definition report_final (opts : options) (comps : list string) (io : streams)
  : report_vars * streams :=
  report_loop opts (report_palette opts) 1 comps (report_init, io).

(** [report(opts, comps, env)] (-L). *)
Definition report (opts : options) (comps : list string) (env : string)
    (io : streams) : streams :=
  let io := print ("Name: " +:+ env) io in
  let p := report_palette opts in
  let '(v, io) := report_loop opts p 1 comps (report_init, io) in
  print (report_summary (numk v) (numf v) (numd v) (numu v) p) io.

(** The first loop of [process]: the dictionary and [new_comps]. *)
Fixpoint process_loop (opts : options) (comps : list string)
    (st : gmap string bool * list string) : gmap string bool * list string :=
  match comps with
  | [] => st
  | comp :: rest =>
      let '(dups, new_comps) := st in
      let '(d, dups) := is_dup dups comp in
      if d then process_loop opts rest (dups, new_comps)
      else if undefined opts && negb (exists_ comp)
      then process_loop opts rest (dups, new_comps)
      else process_loop opts rest (dups, (new_comps ++ [comp])%list)
  end.

(** The second loop of [process] (-l). *)
Fixpoint list_loop (i : nat) (comps : list string) (io : streams) : streams :=
  match comps with
  | [] => io
  | comp :: rest =>
      list_loop (S i) rest (print (Py.rjust 2 (Py.str i) +:+ " " +:+ comp) io)
  end.

(** [process] from its line 171 on, once [comps] is bound. *)
Definition process_comps (opts : options) (env : string) (comps : list string)
    (io : streams) : outcome * streams :=
  if list_report opts then (Return, report opts comps env io)
  else
    let '(dups, new_comps) := process_loop opts comps (∅, []) in
    if list_ opts then (Return, list_loop 1 comps io)
    else (Return, print (Py.join (String (pathsep sys) EmptyString) new_comps) io).

(** [process(opts, env)].  The call of [err] is on line 165 of the
    source. *)
Definition process (opts : options) (env : string) (io : streams)
  : outcome * streams :=
  match environ sys !! env with
  | None =>
      if negb (silent opts) then
        err 165 ("environment variable not defined: " +:+ env
                 +:+ ", use -s to continue") 1 io
      else process_comps opts env [] io
  | Some value => process_comps opts env (Py.split (pathsep sys) value) io
  end.

(** [for env in opts.ENV_VARS: process(opts, env)]; [SystemExit]
    leaves the loop. *)
Fixpoint main_loop (opts : options) (envs : list string) (io : streams)
  : outcome * streams :=
  match envs with
  | [] => (Return, io)
  | env :: rest =>
      match process opts env io with
      | (Return, io) => main_loop opts rest io
      | (SystemExit code, io) => (SystemExit code, io)
      end
  end.

(** [main()], after [getopts()] has returned [opts]. *)
Definition main (opts : options) (io : streams) : outcome * streams :=
  main_loop opts (ENV_VARS opts) io.

(** The exit code of the interpreter. *)
Definition exit_code (o : outcome) : nat :=
  match o with Return => 0 | SystemExit code => code end.

End Tidypath.

Arguments report_iter : simpl never.

(** ** A POSIX machine

    [posixpath] of the interpreter's library, on a machine given by its
    working directory, environment table, password database and file
    system.  It gives the functions of [os] their meaning on POSIX, where
    [os.pathsep] is [":"]. *)

Module Posix.

Record machine := {
  getcwd : string;
  env : gmap string string;
  (** [pwd.getpwuid(os.getuid()).pw_dir], [None] for [KeyError] *)
  getpwuid_dir : option string;
  (** [pwd.getpwnam(name).pw_dir], [None] for [KeyError] *)
  getpwnam_dir : string → option string;
  (** [os.stat(path)] succeeds *)
  stat_ok : string → bool;
}.

Definition sep : ascii := "/"%char.

Definition isabs (s : string) : bool := Py.startswith (Py.times sep 1) s.

(** [join(a, b)]. *)
Definition join (a b : string) : string :=
  if Py.startswith "/" b then b
  else if String.eqb a EmptyString || Py.endswith sep a then a +:+ b
  else a +:+ "/" +:+ b.

(** One turn of the loop of [normpath] over the fields of the path. *)
Definition normpath_step (initial_slashes : nat) (new_comps : list string)
    (comp : string) : list string :=
  if String.eqb comp EmptyString || String.eqb comp "." then new_comps
  else if negb (String.eqb comp "..")
          || (Nat.eqb initial_slashes 0 && bool_decide (new_comps = []))
          || (match last new_comps with
              | Some l => String.eqb l ".."
              | None => false
              end)
  then (new_comps ++ [comp])%list
  else removelast new_comps.

Definition normpath (path : string) : string :=
  if String.eqb path EmptyString then "."
  else
    let initial_slashes :=
      if Py.startswith (Py.times sep 1) path then
        if Py.startswith (Py.times sep 2) path
           && negb (Py.startswith (Py.times sep 3) path)
        then 2 else 1
      else 0 in
    let comps := Py.split sep path in
    let new_comps := fold_left (normpath_step initial_slashes) comps [] in
    let path := Py.join "/" new_comps in
    let path := Py.times sep initial_slashes +:+ path in
    if String.eqb path EmptyString then "." else path.

(** [path.find('/', 1)] cuts [path.[1:]] in the user name and the rest,
    which is empty or starts with the separator. *)
Fixpoint cut_at_sep (s : string) : string * string :=
  match s with
  | EmptyString => (EmptyString, EmptyString)
  | String c s' =>
      if Ascii.eqb c sep then (EmptyString, s)
      else let '(name, rest) := cut_at_sep s' in (String c name, rest)
  end.

Section Machine.

Context (m : machine).

Definition abspath (path : string) : string :=
  let path := if negb (isabs path) then join (getcwd m) path else path in
  normpath path.

Definition expanduser (path : string) : string :=
  match path with
  | String "~"%char after =>
      let '(name, rest) := cut_at_sep after in
      let userhome :=
        if String.eqb name EmptyString then
          match env m !! "HOME" with
          | None => getpwuid_dir m
          | Some home => Some home
          end
        else getpwnam_dir m name in
      match userhome with
      | None => path
      | Some userhome =>
          let userhome := Py.rstrip sep userhome in
          let r := userhome +:+ rest in
          if String.eqb r EmptyString then "/" else r
      end
  | _ => path
  end.

(** [os.path.exists(path)]. *)
Definition exists_ (path : string) : bool := stat_ok m path.

Definition to_os : os :=
  {| environ := env m;
     pathsep := ":"%char;
     path_expanduser := expanduser;
     path_abspath := abspath;
     path_exists := exists_ |}.

End Machine.

End Posix.

(** A machine for the examples: user [u] at home in [/home/u], working
    in [/work], with the directories [/usr/bin], [/tmp], [/home/u/bin]
    and [/work] on disk and nothing else. *)
Definition example_machine (environment : gmap string string) : Posix.machine :=
  {| Posix.getcwd := "/work";
     Posix.env := environment;
     Posix.getpwuid_dir := Some "/home/u";
     Posix.getpwnam_dir := λ name,
       if String.eqb name "u" then Some "/home/u" else None;
     Posix.stat_ok := λ p,
       bool_decide (p ∈ ["/"; "/usr"; "/usr/bin"; "/tmp"; "/home"; "/home/u";
                         "/home/u/bin"; "/work"]) |}.

Definition example_os (environment : gmap string string) : os :=
  Posix.to_os (example_machine environment).

Definition no_options : options :=
  {| color := false; list_ := false; list_report := false; silent := false;
     undefined := false; ENV_VARS := [] |}.

Definition no_output : streams :=
  {| stdout := EmptyString; stderr := EmptyString |}.

(** The options [-l], [-L], [-s] and [-u], without colour. *)
Definition flags (l L s u : bool) : options :=
  {| color := false; list_ := l; list_report := L; silent := s;
     undefined := u; ENV_VARS := [] |}.

(** ** The vocabulary of the specification *)

(** The number of elements of a list a predicate accepts. *)
Definition count {A : Type} (P : A → Prop) `{!∀ x, Decision (P x)}
    (l : list A) : nat :=
  length (filter P l).

(** A classification is a pair: duplicate, and exists.  The entry is
    counted as kept when it is not a duplicate or it exists. *)
Definition kept_rule (de : bool * bool) : Prop := ¬ de.1 ∨ de.2.

#[global] Instance kept_rule_dec de : Decision (kept_rule de).
Proof. unfold kept_rule. apply _. Defined.

Definition classified_duplicate (de : bool * bool) : Prop := de.1.

Definition classified_missing (de : bool * bool) : Prop := ¬ de.2.

#[global] Instance classified_duplicate_dec de : Decision (classified_duplicate de).
Proof. unfold classified_duplicate. apply _. Defined.

#[global] Instance classified_missing_dec de : Decision (classified_missing de).
Proof. unfold classified_missing. apply _. Defined.

(** The same machine with another environment table. *)
Definition with_environ (sys : os) (e : gmap string string) : os :=
  {| environ := e;
     pathsep := pathsep sys;
     path_expanduser := path_expanduser sys;
     path_abspath := path_abspath sys;
     path_exists := path_exists sys |}.

Section Vocabulary.

Context (sys : os).

(** The canonical keys of a list of components, in order. *)
Definition keys (comps : list string) : list string :=
  get_canon sys <$> comps.

(** Component [c], at position [i] of [comps], is a duplicate when a
    component before it has its canonical key. *)
Definition is_duplicate (comps : list string) (i : nat) (c : string) : bool :=
  bool_decide (get_canon sys c ∈ keys (take i comps)).

(** The classification of every component: duplicate, and exists. *)
Definition classify (comps : list string) : list (bool * bool) :=
  imap (λ i c, (is_duplicate comps i c, exists_ sys c)) comps.

(** A component with its classification survives the filter when it
    is not a duplicate and, with [-u], exists. *)
Definition survives (opts : options) (cc : string * (bool * bool)) : Prop :=
  ¬ cc.2.1 ∧ (undefined opts → cc.2.2).

#[global] Instance survives_dec opts cc : Decision (survives opts cc).
Proof. unfold survives. apply _. Defined.

(** The components that survive, as they are written and in their
    order. *)
Definition survivors (opts : options) (comps : list string) : list string :=
  (filter (survives opts) (zip comps (classify comps))).*1.

(** The dictionary when the first loop of [process] has visited
    [comps], and the list it has built. *)
Definition seen_after (opts : options) (comps : list string) : gmap string bool :=
  (process_loop sys opts comps (∅, [])).1.

Definition new_comps (opts : options) (comps : list string) : list string :=
  (process_loop sys opts comps (∅, [])).2.

(** The classification of [rest] when [pre] has been visited. *)
Definition classify_from (pre rest : list string) : list (bool * bool) :=
  imap (λ j c, (is_duplicate (pre ++ rest) (length pre + j) c,
                exists_ sys c)) rest.

(** The first-occurrence rule as the specification words it, for
    [a] before [b] in the list [pre ++ a :: mid ++ b :: post]. *)
Definition first_occurrence_as_stated (opts : options)
    (pre : list string) (a : string) (mid : list string) (b : string) : Prop :=
  get_canon sys a = get_canon sys b →
  (is_dup sys (seen_after opts (pre ++ a :: mid)) b).1 = true ∧
  (is_dup sys (seen_after opts pre) a).1 = false.

End Vocabulary.

(** The split of the empty value as the specification words it: no
    component. *)
Definition empty_value_as_stated (sys : os) : Prop :=
  Py.split (pathsep sys) EmptyString = [].

(** ** The texts the renderers write *)

(** Strings written one after the other. *)
Definition text (parts : list string) : string :=
  foldr String.append EmptyString parts.

(** An entry is classified duplicate and missing. *)
Definition classified_duplicate_missing (de : bool * bool) : Prop :=
  de.1 ∧ ¬ de.2.

#[global] Instance classified_duplicate_missing_dec de :
  Decision (classified_duplicate_missing de).
Proof. unfold classified_duplicate_missing. apply _. Defined.

(** The line of the listing [-l] for the component of index [i]. *)
Definition list_line (i : nat) (comp : string) : string :=
  Py.rjust 2 (Py.str i) +:+ " " +:+ comp +:+ Py.nl.

Definition list_text (comps : list string) : string :=
  text (imap (λ j comp, list_line (S j) comp) comps).

(** The line of the report [-L] for the component of index [i] and
    classification [de]: the index, the marker [d] or [u], the marker
    [e] or [n], and the component as it is written. *)
Definition report_line (p : palette) (i : nat) (comp : string)
    (de : bool * bool) : string :=
  text [ Py.rjust 4 (Py.str i);
         " "; (if de.1 then crb p else cgb p); (if de.1 then "d" else "u"); crs p;
         (if de.2 then cgb p else cuc p); (if de.2 then "e" else "n"); crs p;
         " "; comp; Py.nl ].

(** The components of a variable: those of its value, none for a
    variable that is not in the environment. *)
Definition value_comps (sys : os) (env : string) : list string :=
  match environ sys !! env with
  | Some value => Py.split (pathsep sys) value
  | None => []
  end.

(** Every variable of a list is in the environment. *)
Definition all_defined (sys : os) (envs : list string) : Prop :=
  Forall (λ env, is_Some (environ sys !! env)) envs.

Section Texts.

Context (sys : os).

(** The whole text of the report of [comps] under the name [env], from
    the classification of [comps]. *)
Definition report_text (opts : options) (comps : list string) (env : string)
  : string :=
  let p := report_palette opts in
  let cls := classify sys comps in
  let d := count classified_duplicate cls in
  let u := count classified_missing cls in
  text [ "Name: "; env; Py.nl;
         text (imap (λ j cd, report_line p (S j) cd.1 cd.2) (zip comps cls));
         report_summary (count kept_rule cls)
           (d + (if undefined opts then u else 0)) d u p;
         Py.nl ].

(** The line of the default mode for [comps]. *)
Definition shell_line (opts : options) (comps : list string) : string :=
  Py.join (String (pathsep sys) EmptyString) (new_comps sys opts comps) +:+ Py.nl.

(** What [process] writes for a variable whose components are
    [comps]: the report, the listing or the line. *)
Definition process_text (opts : options) (env : string) (comps : list string)
  : string :=
  if list_report opts then report_text opts comps env
  else if list_ opts then list_text comps
  else shell_line opts comps.

End Texts.

(** The message of [err] for a variable that is not in the
    environment. *)
Definition error_text (env : string) : string :=
  Py.esc +:+ "[31;1m" +:+ "ERROR:" +:+ "165:" +:+ Py.esc +:+ "[0;31m"
  +:+ " environment variable not defined: " +:+ env
  +:+ ", use -s to continue" +:+ Py.esc +:+ "[0m" +:+ Py.nl.

(** ** Splitting and joining *)

Module PyFacts.

Import Py.

Lemma split_not_nil sep s : split sep s ≠ [].
Proof.
  destruct s as [|c s]; simpl; [done|].
  destruct (Ascii.eqb c sep); [done|]. by destruct (split sep s).
Qed.

Lemma split_sep_free sep s : Forall (λ w, contains sep w = false) (split sep s).
Proof.
  induction s as [|c s IH]; simpl.
  - by constructor.
  - destruct (Ascii.eqb c sep) eqn:E.
    + by constructor.
    + destruct (split sep s) as [|w ws]; simpl.
      * constructor; [|done]. simpl. by rewrite E.
      * inversion IH; subst. constructor; [|done]. simpl. by rewrite E.
Qed.

Lemma split_sep_free_word sep w :
  contains sep w = false → split sep w = [w].
Proof.
  induction w as [|c w IH]; simpl; [done|].
  intros [E1 E2]%orb_false_iff. rewrite E1, (IH E2). done.
Qed.

Lemma split_app_sep sep w s :
  contains sep w = false →
  split sep (w +:+ String sep s) = w :: split sep s.
Proof.
  induction w as [|c w IH]; simpl.
  - intros _. by rewrite Ascii.eqb_refl.
  - intros [E1 E2]%orb_false_iff. by rewrite E1, (IH E2).
Qed.

(** Splitting undoes joining, for a list that is not empty and whose
    fields do not hold the separator. *)
Lemma split_join sep l :
  l ≠ [] → Forall (λ w, contains sep w = false) l →
  split sep (join (String sep EmptyString) l) = l.
Proof.
  induction l as [|x l IH]; [done|]. intros _ Hall.
  inversion Hall as [|? ? Hx Hl]; subst.
  destruct l as [|y l].
  - simpl. by apply split_sep_free_word.
  - change (join (String sep EmptyString) (x :: y :: l))
      with (x +:+ String sep (join (String sep EmptyString) (y :: l))).
    rewrite split_app_sep by done. f_equal. by apply IH.
Qed.

Lemma join_split sep s : join (String sep EmptyString) (split sep s) = s.
Proof.
  induction s as [|c s IH]; simpl; [done|].
  destruct (Ascii.eqb c sep) eqn:E.
  - apply Ascii.eqb_eq in E as ->.
    pose proof (split_not_nil sep s).
    destruct (split sep s) as [|w ws]; [done|].
    change (join (String sep EmptyString) (EmptyString :: w :: ws))
      with (String sep (join (String sep EmptyString) (w :: ws))).
    by rewrite IH.
  - pose proof (split_not_nil sep s).
    destruct (split sep s) as [|w ws]; [done|].
    rewrite <- IH. destruct ws; done.
Qed.

End PyFacts.

(** ** The model on examples *)

Example get_canon_examples :
  let sys := example_os {[ "HOME" := "/home/u" ]} in
  get_canon sys "~/bin" = "/home/u/bin" ∧
  get_canon sys "/home/u/bin/" = "/home/u/bin" ∧
  get_canon sys "~u/bin/../bin" = "/home/u/bin" ∧
  get_canon sys "bin/./x" = "/work/bin/x" ∧
  get_canon sys ".." = "/" ∧
  get_canon sys "//usr///bin" = "//usr/bin" ∧
  get_canon sys "~nobody/x" = "/work/~nobody/x".
Proof. vm_compute. repeat split. Qed.

Example scenario_undefined :
  let sys := example_os {[ "PATH" := "/usr/bin:/usr/bin:/nonexistent" ]} in
  process sys (flags false false false true) "PATH" no_output
  = (Return, print "/usr/bin" no_output).
Proof. vm_compute. reflexivity. Qed.

Example scenario_list :
  let sys := example_os {[ "PATH" := "/a:/b" ]} in
  process sys (flags true false false false) "PATH" no_output
  = (Return, print " 2 /b" (print " 1 /a" no_output)).
Proof. vm_compute. reflexivity. Qed.

Example scenario_default :
  let sys := example_os {[ "PATH" := "/usr/bin:/usr/bin:/nonexistent" ]} in
  process sys no_options "PATH" no_output
  = (Return, {| stdout := "/usr/bin:/nonexistent" +:+ Py.nl; stderr := EmptyString |}).
Proof. vm_compute. reflexivity. Qed.

(** ** The duplicate check and the loops that call it *)

Section Loops.

Context (sys : os).

Implicit Types (comps pre : list string) (seen : gmap string bool).

Lemma is_dup_true seen c :
  (is_dup sys seen c).1 = true ↔ get_canon sys c ∈ dom seen.
Proof.
  unfold is_dup. rewrite elem_of_dom.
  destruct (seen !! get_canon sys c) eqn:E; simpl.
  - split; [eauto|done].
  - split; [done|]. by intros [? ?].
Qed.

Lemma is_dup_false seen c :
  (is_dup sys seen c).1 = false ↔ get_canon sys c ∉ dom seen.
Proof.
  rewrite <- is_dup_true. by destruct (is_dup sys seen c).1.
Qed.

Lemma is_dup_dom seen c :
  dom (is_dup sys seen c).2 = {[ get_canon sys c ]} ∪ dom seen.
Proof.
  unfold is_dup. destruct (seen !! get_canon sys c) eqn:E; simpl.
  - assert (get_canon sys c ∈ dom seen) by (apply elem_of_dom; eauto).
    set_solver.
  - by rewrite dom_insert_L.
Qed.

Lemma is_dup_subseteq seen c : seen ⊆ (is_dup sys seen c).2.
Proof.
  unfold is_dup. destruct (seen !! get_canon sys c) eqn:E; simpl; [done|].
  by apply insert_subseteq.
Qed.

Lemma keys_app comps1 comps2 :
  keys sys (comps1 ++ comps2) = (keys sys comps1 ++ keys sys comps2)%list.
Proof. unfold keys. by rewrite fmap_app. Qed.

(** The first loop of [process], one list after the other. *)
Lemma process_loop_app opts comps1 comps2 st :
  process_loop sys opts (comps1 ++ comps2)%list st
  = process_loop sys opts comps2 (process_loop sys opts comps1 st).
Proof.
  revert st. induction comps1 as [|c comps1 IH]; intros [seen acc]; simpl; [done|].
  destruct (is_dup sys seen c) as [[] seen']; [done|].
  by destruct (undefined opts && negb (exists_ sys c)).
Qed.

Lemma process_loop_dom opts comps seen acc :
  dom (process_loop sys opts comps (seen, acc)).1
  = list_to_set (keys sys comps) ∪ dom seen.
Proof.
  revert seen acc. induction comps as [|c comps IH]; intros seen acc; simpl.
  - set_solver.
  - pose proof (is_dup_dom seen c) as Hd.
    destruct (is_dup sys seen c) as [[] seen']; simpl in Hd.
    + rewrite IH, Hd. set_solver.
    + destruct (undefined opts && negb (exists_ sys c));
        rewrite IH, Hd; set_solver.
Qed.

Lemma seen_after_dom opts comps :
  dom (seen_after sys opts comps) = list_to_set (keys sys comps).
Proof.
  unfold seen_after. rewrite process_loop_dom. set_solver.
Qed.

(** What one turn of the loop of [report] does to the local variables. *)
Lemma report_iter_vars opts p i c v io :
  let d := (is_dup sys (dups v) c).1 in
  let e := exists_ sys c in
  (report_iter sys opts p i c (v, io)).1
  = {| dups := (is_dup sys (dups v) c).2;
       numu := numu v + (if e then 0 else 1);
       numd := numd v + (if d then 1 else 0);
       numf := numf v + (if d then 1 else 0)
               + (if negb e && undefined opts then 1 else 0);
       numk := numk v + (if negb d || e then 1 else 0) |}.
Proof.
  unfold report_iter.
  destruct (is_dup sys (dups v) c) as [[] seen'];
    destruct (exists_ sys c); destruct (undefined opts); simpl;
    f_equal; lia.
Qed.

Lemma report_loop_app opts p i comps1 comps2 st :
  report_loop sys opts p i (comps1 ++ comps2)%list st
  = report_loop sys opts p (length comps1 + i) comps2
      (report_loop sys opts p i comps1 st).
Proof.
  revert i st. induction comps1 as [|c comps1 IH]; intros i st; simpl; [done|].
  rewrite IH. f_equal. lia.
Qed.

Lemma report_loop_dom opts p i comps v io :
  dom (dups (report_loop sys opts p i comps (v, io)).1)
  = list_to_set (keys sys comps) ∪ dom (dups v).
Proof.
  revert i v io. induction comps as [|c comps IH]; intros i v io; simpl.
  - set_solver.
  - destruct (report_iter sys opts p i c (v, io)) as [v' io'] eqn:E.
    pose proof (report_iter_vars opts p i c v io) as Hv.
    rewrite E in Hv. simpl in Hv.
    rewrite IH, Hv. simpl. rewrite is_dup_dom. set_solver.
Qed.

End Loops.

(** ** The loops against the classification *)

Section Classification.

Context (sys : os).

Implicit Types (comps pre rest : list string) (seen : gmap string bool).

Lemma classify_from_nil comps : classify_from sys [] comps = classify sys comps.
Proof. done. Qed.

Lemma classify_from_cons pre c rest :
  classify_from sys pre (c :: rest)
  = (bool_decide (get_canon sys c ∈ keys sys pre), exists_ sys c)
      :: classify_from sys (pre ++ [c]) rest.
Proof.
  unfold classify_from. rewrite imap_cons. f_equal.
  - unfold is_duplicate. by rewrite Nat.add_0_r, take_app_length.
  - apply imap_ext. intros j x _. simpl.
    rewrite <- app_assoc, length_app. simpl.
    by replace (length pre + 1 + j) with (length pre + S j) by lia.
Qed.

Lemma length_classify comps : length (classify sys comps) = length comps.
Proof. unfold classify. by rewrite length_imap. Qed.

Lemma is_dup_decide seen pre c :
  dom seen = list_to_set (keys sys pre) →
  (is_dup sys seen c).1 = bool_decide (get_canon sys c ∈ keys sys pre).
Proof.
  intros Hdom. destruct (is_dup sys seen c).1 eqn:E; symmetry.
  - apply bool_decide_eq_true. apply is_dup_true in E. set_solver.
  - apply bool_decide_eq_false. apply is_dup_false in E. set_solver.
Qed.

Lemma is_dup_dom_snoc seen pre c :
  dom seen = list_to_set (keys sys pre) →
  dom (is_dup sys seen c).2 = list_to_set (keys sys (pre ++ [c])).
Proof.
  intros Hdom. rewrite is_dup_dom, Hdom, keys_app. simpl. set_solver.
Qed.

Lemma count_cons {A} (P : A → Prop) `{!∀ x, Decision (P x)} x l :
  count P (x :: l) = (if decide (P x) then 1 else 0) + count P l.
Proof. unfold count. rewrite filter_cons. by destruct (decide (P x)). Qed.

(** The counters of [report] count classifications. *)
Lemma report_loop_counts opts p pre rest i v io :
  dom (dups v) = list_to_set (keys sys pre) →
  let cls := classify_from sys pre rest in
  let v' := (report_loop sys opts p i rest (v, io)).1 in
  numk v' = numk v + count kept_rule cls ∧
  numd v' = numd v + count classified_duplicate cls ∧
  numu v' = numu v + count classified_missing cls ∧
  numf v' = numf v + count classified_duplicate cls
            + (if undefined opts then count classified_missing cls else 0).
Proof.
  revert pre i v io. induction rest as [|c rest IH]; intros pre i v io Hdom.
  - simpl. unfold count. simpl. destruct (undefined opts); lia.
  - cbn zeta. rewrite classify_from_cons. cbn [report_loop].
    destruct (report_iter sys opts p i c (v, io)) as [v1 io1] eqn:E.
    pose proof (report_iter_vars sys opts p i c v io) as Hv.
    rewrite E in Hv. cbn zeta in Hv. simpl in Hv.
    rewrite (is_dup_decide _ pre) in Hv by done.
    specialize (IH (pre ++ [c])%list (S i) v1 io1).
    destruct IH as (Hk & Hd & Hu & Hf).
    { rewrite Hv. simpl. by apply is_dup_dom_snoc. }
    rewrite Hk, Hd, Hu, Hf, !count_cons, Hv. simpl.
    destruct (bool_decide (get_canon sys c ∈ keys sys pre));
      destruct (exists_ sys c); destruct (undefined opts); simpl;
      repeat case_decide;
      unfold kept_rule, classified_duplicate, classified_missing in *; simpl in *;
      try lia; exfalso; naive_solver.
Qed.

(** The first loop of [process] appends the survivors. *)
Lemma process_loop_survivors opts pre rest seen acc :
  dom seen = list_to_set (keys sys pre) →
  (process_loop sys opts rest (seen, acc)).2
  = (acc ++ (filter (survives opts) (zip rest (classify_from sys pre rest))).*1)%list.
Proof.
  revert pre seen acc. induction rest as [|c rest IH]; intros pre seen acc Hdom.
  - simpl. by rewrite app_nil_r.
  - rewrite classify_from_cons. cbn [process_loop zip zip_with].
    pose proof (is_dup_decide seen pre c Hdom) as Hd.
    pose proof (is_dup_dom_snoc seen pre c Hdom) as Hs.
    destruct (is_dup sys seen c) as [d seen']. simpl in Hd, Hs. subst d.
    rewrite filter_cons.
    destruct (bool_decide (get_canon sys c ∈ keys sys pre)) eqn:Ed.
    + rewrite decide_False by (unfold survives; simpl; naive_solver).
      by apply IH.
    + destruct (undefined opts) eqn:Eu; destruct (exists_ sys c) eqn:Ee; simpl.
      * rewrite decide_True by (unfold survives; simpl; rewrite Eu; naive_solver).
        rewrite (IH (pre ++ [c])%list) by done. simpl. by rewrite <- app_assoc.
      * rewrite decide_False by (unfold survives; simpl; rewrite Eu; naive_solver).
        by apply IH.
      * rewrite decide_True by (unfold survives; simpl; rewrite Eu; naive_solver).
        rewrite (IH (pre ++ [c])%list) by done. simpl. by rewrite <- app_assoc.
      * rewrite decide_True by (unfold survives; simpl; rewrite Eu; naive_solver).
        rewrite (IH (pre ++ [c])%list) by done. simpl. by rewrite <- app_assoc.
Qed.

Lemma new_comps_survivors opts comps :
  new_comps sys opts comps = survivors sys opts comps.
Proof.
  unfold new_comps, survivors.
  rewrite (process_loop_survivors opts []) by set_solver. done.
Qed.

Lemma survivors_sublist opts comps : sublist (survivors sys opts comps) comps.
Proof.
  unfold survivors.
  pose proof (fmap_sublist fst _ _
    (sublist_filter (survives opts) (zip comps (classify sys comps)))) as H.
  rewrite fst_zip in H by (rewrite length_classify; lia). exact H.
Qed.

End Classification.

(** ** What the first loop of [process] keeps *)

Section Filter.

Context (sys : os).

Implicit Types (comps : list string) (seen : gmap string bool).

(** Every component the loop appends is new to the dictionary it
    started from, comes from the list and, with [-u], exists; the
    appended components have distinct keys. *)
Lemma process_loop_appends opts comps seen acc :
  ∃ kept,
    (process_loop sys opts comps (seen, acc)).2 = (acc ++ kept)%list ∧
    NoDup (keys sys kept) ∧
    ∀ x, x ∈ kept →
      (get_canon sys x ∉ dom seen) ∧ (x ∈ comps) ∧
      (undefined opts = true → exists_ sys x = true).
Proof.
  revert seen acc. induction comps as [|c comps IH]; intros seen acc.
  - exists []. simpl. rewrite app_nil_r. split_and!; [done|constructor|].
    intros x Hx. by apply elem_of_nil in Hx.
  - cbn [process_loop].
    pose proof (is_dup_dom sys seen c) as Hdom.
    pose proof (is_dup_false sys seen c) as Hfalse.
    destruct (is_dup sys seen c) as [d seen']. simpl in Hdom, Hfalse.
    assert (Hdrop : ∀ acc', ∃ kept,
      (process_loop sys opts comps (seen', acc')).2 = (acc' ++ kept)%list ∧
      NoDup (keys sys kept) ∧
      ∀ x, x ∈ kept →
        (get_canon sys x ∉ dom seen') ∧ (get_canon sys x ∉ dom seen) ∧
        (x ∈ c :: comps) ∧ (undefined opts = true → exists_ sys x = true)).
    { intros acc'. destruct (IH seen' acc') as (kept & E & Hnd & Hk).
      exists kept. split_and!; [done..|].
      intros x Hx. destruct (Hk x Hx) as (? & ? & ?). set_solver. }
    destruct d.
    { destruct (Hdrop acc) as (kept & ? & ? & Hk). exists kept.
      split_and!; [done..|]. intros x Hx. by destruct (Hk x Hx) as (_ & ? & ? & ?). }
    destruct (undefined opts && negb (exists_ sys c)) eqn:Eu.
    { destruct (Hdrop acc) as (kept & ? & ? & Hk). exists kept.
      split_and!; [done..|]. intros x Hx. by destruct (Hk x Hx) as (_ & ? & ? & ?). }
    destruct (Hdrop (acc ++ [c])%list) as (kept & E & Hnd & Hk).
    exists (c :: kept). split_and!.
    + by rewrite E, <- app_assoc.
    + unfold keys. rewrite fmap_cons. apply NoDup_cons. split; [|done].
      intros (x & Ex & Hx)%list_elem_of_fmap.
      destruct (Hk x Hx) as (Hx' & _). rewrite <- Ex in Hx'. set_solver.
    + intros x [->|Hx]%elem_of_cons.
      * split_and!; [by apply Hfalse|set_solver|].
        intros Hu. rewrite Hu in Eu. simpl in Eu.
        by apply negb_false_iff in Eu.
      * by destruct (Hk x Hx) as (_ & ? & ? & ?).
Qed.

(** A list of distinct keys, new to the dictionary and, with [-u],
    existing, goes through the loop whole. *)
Lemma process_loop_keeps_all opts comps seen acc :
  NoDup (keys sys comps) →
  (∀ x, x ∈ comps →
     (get_canon sys x ∉ dom seen) ∧
     (undefined opts = true → exists_ sys x = true)) →
  (process_loop sys opts comps (seen, acc)).2 = (acc ++ comps)%list.
Proof.
  revert seen acc. induction comps as [|c comps IH]; intros seen acc Hnd Hall.
  - simpl. by rewrite app_nil_r.
  - cbn [process_loop].
    unfold keys in Hnd. rewrite fmap_cons in Hnd.
    apply NoDup_cons in Hnd as [Hc Hnd].
    destruct (Hall c) as [Hnew Hex]; [set_solver|].
    pose proof (is_dup_dom sys seen c) as Hdom.
    apply is_dup_false in Hnew.
    destruct (is_dup sys seen c) as [d seen']. simpl in Hdom, Hnew. subst d.
    destruct (undefined opts) eqn:Eu; simpl.
    + rewrite Hex by done. simpl. rewrite IH; [by rewrite <- app_assoc|done|].
      intros x Hx. destruct (Hall x) as [? ?]; [set_solver|].
      split; [|done]. rewrite Hdom.
      assert (get_canon sys x ≠ get_canon sys c).
      { intros E. apply Hc. rewrite <- E. apply list_elem_of_fmap. eauto. }
      set_solver.
    + rewrite IH; [by rewrite <- app_assoc|done|].
      intros x Hx. destruct (Hall x) as [? ?]; [set_solver|].
      split; [|done]. rewrite Hdom.
      assert (get_canon sys x ≠ get_canon sys c).
      { intros E. apply Hc. rewrite <- E. apply list_elem_of_fmap. eauto. }
      set_solver.
Qed.

Lemma new_comps_NoDup opts comps : NoDup (keys sys (new_comps sys opts comps)).
Proof.
  unfold new_comps.
  destruct (process_loop_appends opts comps ∅ []) as (kept & -> & ? & _). done.
Qed.

Lemma new_comps_elem opts comps x :
  x ∈ new_comps sys opts comps →
  x ∈ comps ∧ (undefined opts = true → exists_ sys x = true).
Proof.
  unfold new_comps.
  destruct (process_loop_appends opts comps ∅ []) as (kept & -> & _ & Hk).
  simpl. intros Hx. by destruct (Hk x Hx) as (_ & ? & ?).
Qed.

(** Filtering a filtered list changes nothing. *)
Lemma new_comps_idemp opts comps :
  new_comps sys opts (new_comps sys opts comps) = new_comps sys opts comps.
Proof.
  unfold new_comps at 1. rewrite process_loop_keeps_all; [done|..].
  - apply new_comps_NoDup.
  - intros x Hx. split; [set_solver|]. by apply new_comps_elem in Hx as [_ ?].
Qed.

(** Without [-u] the kept components have the keys of the dictionary. *)
Lemma process_loop_keys opts comps seen acc :
  undefined opts = false →
  list_to_set (keys sys acc) = dom seen →
  list_to_set (keys sys (process_loop sys opts comps (seen, acc)).2)
  = dom (process_loop sys opts comps (seen, acc)).1.
Proof.
  intros Hu. revert seen acc.
  induction comps as [|c comps IH]; intros seen acc Hacc; [done|].
  cbn [process_loop].
  pose proof (is_dup_dom sys seen c) as Hdom.
  pose proof (is_dup_true sys seen c) as Htrue.
  destruct (is_dup sys seen c) as [d seen']. simpl in Hdom, Htrue.
  destruct d.
  - apply IH. rewrite Hdom, Hacc.
    assert (get_canon sys c ∈ dom seen) by by apply Htrue.
    set_solver.
  - rewrite Hu. simpl. apply IH.
    rewrite keys_app, list_to_set_app_L, Hacc, Hdom. simpl. set_solver.
Qed.

End Filter.

(** ** Strings and streams *)

Lemma append_assoc (a b c : string) : (a +:+ b) +:+ c = a +:+ (b +:+ c).
Proof.
  induction a as [|x a IH]; [done|].
  change (String x ((a +:+ b) +:+ c) = String x (a +:+ (b +:+ c))).
  by rewrite IH.
Qed.

Lemma append_nil_r (a : string) : a +:+ EmptyString = a.
Proof.
  induction a as [|x a IH]; [done|].
  change (String x (a +:+ EmptyString) = String x a). by rewrite IH.
Qed.

(** The variables before a fatal one are processed, the ones after it
    are not. *)
Lemma main_loop_stops sys opts before env rest io0 io code io' :
  main_loop sys opts before io0 = (Return, io) →
  process sys opts env io = (SystemExit code, io') →
  main_loop sys opts (before ++ env :: rest) io0 = (SystemExit code, io').
Proof.
  revert io0. induction before as [|e before IH]; intros io0; simpl.
  - intros [= ->] ->. done.
  - destruct (process sys opts e io0) as [[|c] io1]; [|done].
    apply IH.
Qed.

(** ** The canonical form of the empty component on POSIX *)

Lemma split_snoc_sep sep s :
  Py.split sep (s +:+ String sep EmptyString)
  = (Py.split sep s ++ [EmptyString])%list.
Proof.
  induction s as [|c s IH].
  - simpl. by rewrite Ascii.eqb_refl.
  - change (String c s +:+ String sep EmptyString)
      with (String c (s +:+ String sep EmptyString)).
    cbn [Py.split]. rewrite IH.
    destruct (Ascii.eqb c sep); [done|].
    pose proof (PyFacts.split_not_nil sep s).
    by destruct (Py.split sep s).
Qed.

Lemma startswith_snoc_sep n s :
  s ≠ EmptyString → Py.endswith Posix.sep s = false →
  Py.startswith (Py.times Posix.sep n) (s +:+ "/")
  = Py.startswith (Py.times Posix.sep n) s.
Proof.
  revert s. induction n as [|n IH]; intros s Hs He; [done|].
  destruct s as [|c s]; [done|].
  change (String c s +:+ "/") with (String c (s +:+ "/")).
  cbn [Py.times Py.startswith].
  destruct (Ascii.eqb Posix.sep c) eqn:Ec; [|done]. simpl.
  apply Ascii.eqb_eq in Ec as <-.
  destruct s as [|c' s]; [done|]. by apply IH.
Qed.

Lemma normpath_trailing_sep s :
  s ≠ EmptyString → Py.endswith Posix.sep s = false →
  Posix.normpath (s +:+ "/") = Posix.normpath s.
Proof.
  intros Hs He. unfold Posix.normpath.
  destruct s as [|c s]; [done|].
  change (String.eqb (String c s +:+ "/") EmptyString) with false.
  change (String.eqb (String c s) EmptyString) with false. cbv iota.
  rewrite !startswith_snoc_sep by done.
  change "/" with (String Posix.sep EmptyString) at 1.
  rewrite split_snoc_sep, fold_left_app. done.
Qed.

Lemma posix_abspath_empty m :
  Posix.normpath (Posix.getcwd m) = Posix.getcwd m →
  Posix.abspath m EmptyString = Posix.getcwd m.
Proof.
  intros Hn. unfold Posix.abspath, Posix.join.
  change (Posix.isabs EmptyString) with false.
  change (Py.startswith "/" EmptyString) with false. cbn [negb].
  destruct (Posix.getcwd m) as [|c s] eqn:E; [done|].
  change (String.eqb (String c s) EmptyString) with false.
  rewrite orb_false_l.
  destruct (Py.endswith Posix.sep (String c s)) eqn:He.
  - by rewrite append_nil_r.
  - change (String c s +:+ "/" +:+ EmptyString) with (String c s +:+ "/").
    by rewrite normpath_trailing_sep.
Qed.

(** ** Running the filter on its own output *)

Lemma process_loop_with_environ sys e opts comps st :
  process_loop (with_environ sys e) opts comps st = process_loop sys opts comps st.
Proof.
  revert st. induction comps as [|c comps IH]; intros [seen acc]; [done|].
  cbn [process_loop].
  change (is_dup (with_environ sys e) seen c) with (is_dup sys seen c).
  change (exists_ (with_environ sys e) c) with (exists_ sys c).
  destruct (is_dup sys seen c) as [[] seen']; [apply IH|].
  destruct (undefined opts && negb (exists_ sys c)); apply IH.
Qed.

Lemma new_comps_sep_free sys opts value :
  Forall (λ w, Py.contains (pathsep sys) w = false)
    (new_comps sys opts (Py.split (pathsep sys) value)).
Proof.
  apply Forall_forall. intros x [Hx _]%new_comps_elem.
  revert x Hx. apply Forall_forall, PyFacts.split_sep_free.
Qed.

(** The line printed for a value, split and filtered again, is the
    same line. *)
Lemma resplit_new_comps sys opts value :
  let sep := String (pathsep sys) EmptyString in
  let kept := new_comps sys opts (Py.split (pathsep sys) value) in
  Py.join sep (new_comps sys opts (Py.split (pathsep sys) (Py.join sep kept)))
  = Py.join sep kept.
Proof.
  intros sep kept.
  destruct kept as [|x kept'] eqn:E.
  - simpl. unfold new_comps. cbn [process_loop].
    destruct (is_dup sys ∅ EmptyString) as [[] seen]; [done|].
    by destruct (undefined opts && negb (exists_ sys EmptyString)).
  - rewrite <- E. unfold sep. rewrite PyFacts.split_join.
    + unfold kept. by rewrite new_comps_idemp.
    + by rewrite E.
    + apply new_comps_sep_free.
Qed.

Lemma process_shell_output sys opts env value io :
  environ sys !! env = Some value →
  list_report opts = false → list_ opts = false →
  process sys opts env io
  = (Return, print (Py.join (String (pathsep sys) EmptyString)
                      (new_comps sys opts (Py.split (pathsep sys) value))) io).
Proof.
  intros He HL Hl. unfold process, process_comps, new_comps.
  rewrite He, HL, Hl.
  by destruct (process_loop sys opts (Py.split (pathsep sys) value) (∅, [])).
Qed.

(** ** The claims of the specification *)

(** C1: in report mode a component adds one to [numk] exactly when the
    duplicate check at its visit answers no or the component exists, and
    never more than one; so [numk] is the number of components whose
    classification satisfies the kept rule.  The run on
    [pre ++ c :: post] visits [c] in the state the run on [pre] ends
    in. *)
Theorem report_kept_rule sys opts pre c post io :
  let p := report_palette opts in
  let comps := (pre ++ c :: post)%list in
  let before := report_final sys opts pre io in
  let after := report_iter sys opts p (S (length pre)) c before in
  let d := (is_dup sys (dups before.1) c).1 in
  let e := exists_ sys c in
  report_final sys opts comps io
  = report_loop sys opts p (S (S (length pre))) post after ∧
  d = is_duplicate sys comps (length pre) c ∧
  numk after.1 = numk before.1 + (if negb d || e then 1 else 0) ∧
  numk (report_final sys opts comps io).1 = count kept_rule (classify sys comps).
Proof.
  intros p comps before after d e. split_and!.
  - unfold comps, after, before, report_final.
    rewrite report_loop_app. cbn [report_loop].
    by replace (length pre + 1) with (S (length pre)) by lia.
  - unfold d, before, report_final, comps, is_duplicate.
    rewrite take_app_length. apply is_dup_decide.
    rewrite report_loop_dom. set_solver.
  - unfold after, d, e. clearbody before. destruct before as [v io1].
    by rewrite report_iter_vars.
  - unfold report_final.
    destruct (report_loop_counts sys opts (report_palette opts) [] comps 1
                report_init io) as (Hk & _); [set_solver|].
    rewrite Hk. done.
Qed.

(** The four counters of [report] as counts of classifications:
    [numf] is [numd] plus, with [-u], [numu]. *)
Lemma report_counters sys opts comps io :
  let v := (report_final sys opts comps io).1 in
  let cls := classify sys comps in
  numd v = count classified_duplicate cls ∧
  numu v = count classified_missing cls ∧
  numf v = numd v + (if undefined opts then numu v else 0).
Proof.
  intros v cls. unfold v, report_final.
  destruct (report_loop_counts sys opts (report_palette opts) [] comps 1
              report_init io) as (_ & Hd & Hu & Hf); [set_solver|].
  rewrite classify_from_nil in *. cbn zeta in *.
  rewrite Hf, Hd, Hu. simpl. split_and!; [done..|].
  destruct (undefined opts); lia.
Qed.

(** C2: with [-L -u] on [PATH=/a:/a], where [/a] does not exist, the
    second entry is a duplicate and missing and adds two to [numf]:
    the report prints 3 for two entries, where the specification says
    2.  Without [-u] it prints 1. *)
Theorem report_numf_counts_twice :
  let sys := example_os {[ "PATH" := "/a:/a" ]} in
  let opts := flags false true false true in
  let v := (report_final sys opts (Py.split (pathsep sys) "/a:/a") no_output).1 in
  classify sys (Py.split (pathsep sys) "/a:/a") = [(false, false); (true, false)] ∧
  numk v = 1 ∧ numf v = 3 ∧ numd v = 1 ∧ numu v = 2 ∧
  numf (report_final sys (flags false true false false)
          (Py.split (pathsep sys) "/a:/a") no_output).1 = 1 ∧
  process sys opts "PATH" no_output
  = (Return,
     {| stdout := Py.join Py.nl [
          "Name: PATH";
          "   1 un /a";
          "   2 dn /a";
          EmptyString;
          "Key:";
          "     ue   unique, exists";
          "     de   duplicate, exists";
          "     un   unique, does not exist";
          "     dn   duplicate, does not exist";
          EmptyString;
          "Summary:";
          "    Num Kept       :  1";
          "    Num Filtered   :  3";
          "    Num Duplicates :  1";
          "    Num Undefined  :  2";
          EmptyString ];
        stderr := EmptyString |}).
Proof. vm_compute. repeat split. Qed.

(** C3, as the specification words it, fails on [/tmp:/tmp:/tmp] for
    the second and the third entry: the second is a duplicate too. *)
Lemma first_occurrence_as_stated_fails :
  ¬ first_occurrence_as_stated (example_os ∅) no_options
      ["/tmp"] "/tmp" [] "/tmp".
Proof.
  intros H. destruct H as [_ H]; [reflexivity|].
  vm_compute in H. discriminate.
Qed.

(** C3: of two components with one canonical key, the later one is
    classified duplicate; the earlier one is classified duplicate exactly
    when a component before it has the key too, so the first occurrence
    is not.  The check of an entry consults the dictionary built from
    the entries before it, whose keys are exactly theirs. *)
Theorem first_occurrence_wins sys opts pre a mid b post :
  get_canon sys a = get_canon sys b →
  process_loop sys opts (pre ++ a :: mid ++ b :: post) (∅, [])
  = process_loop sys opts (b :: post)
      (process_loop sys opts (pre ++ a :: mid) (∅, [])) ∧
  dom (seen_after sys opts (pre ++ a :: mid))
  = list_to_set (keys sys (pre ++ a :: mid)) ∧
  (is_dup sys (seen_after sys opts (pre ++ a :: mid)) b).1 = true ∧
  ((is_dup sys (seen_after sys opts pre) a).1 = false
   ↔ get_canon sys a ∉ keys sys pre).
Proof.
  intros Hab. split_and!.
  - replace (pre ++ a :: mid ++ b :: post)%list
      with ((pre ++ a :: mid) ++ b :: post)%list by by rewrite <- app_assoc.
    apply process_loop_app.
  - apply seen_after_dom.
  - apply is_dup_true. rewrite seen_after_dom, keys_app, <- Hab. simpl.
    set_solver.
  - rewrite is_dup_false, seen_after_dom. set_solver.
Qed.

Lemma first_occurrence_wins_witness :
  let sys := example_os {[ "HOME" := "/home/u" ]} in
  get_canon sys "~/bin" = get_canon sys "/home/u/bin/" ∧
  (is_dup sys (seen_after sys no_options ["~/bin"; "/tmp"]) "/home/u/bin/").1 = true ∧
  (is_dup sys (seen_after sys no_options []) "~/bin").1 = false.
Proof.
  intros sys.
  assert (E : get_canon sys "~/bin" = get_canon sys "/home/u/bin/")
    by (vm_compute; reflexivity).
  destruct (first_occurrence_wins sys no_options [] "~/bin" ["/tmp"]
              "/home/u/bin/" [] E) as (_ & _ & Hb & Ha).
  split_and!; [exact E|exact Hb|].
  apply Ha. vm_compute. intros H. by apply elem_of_nil in H.
Defined.

(** C4: in the default mode [process] prints, for a variable with value
    [value], the components of the value that are not duplicates and,
    with [-u], exist, as they are written, in their order, joined by
    [os.pathsep], on one line. *)
Theorem shell_output_filters sys opts env value io :
  environ sys !! env = Some value →
  list_report opts = false → list_ opts = false →
  let comps := Py.split (pathsep sys) value in
  process sys opts env io
  = (Return, print (Py.join (String (pathsep sys) EmptyString)
                      (survivors sys opts comps)) io) ∧
  survivors sys opts comps `sublist_of` comps.
Proof.
  intros He HL Hl comps. split.
  - rewrite (process_shell_output sys opts env value) by done.
    by rewrite new_comps_survivors.
  - apply survivors_sublist.
Qed.

Lemma shell_output_filters_witness :
  let sys := example_os {[ "PATH" := "/usr/bin:~/bin:/usr/bin/:/nonexistent:/home/u/bin" ]} in
  let opts := flags false false false true in
  process sys opts "PATH" no_output
  = (Return, print "/usr/bin:~/bin" no_output).
Proof.
  intros sys opts.
  destruct (shell_output_filters sys opts "PATH"
              "/usr/bin:~/bin:/usr/bin/:/nonexistent:/home/u/bin" no_output)
    as [E _]; [reflexivity..|].
  rewrite E. vm_compute. reflexivity.
Defined.

(** C5: in the default mode, the line printed for a variable, put back
    as the value of the variable, makes [process] print the same line:
    the kept components have distinct canonical keys. *)
Theorem shell_output_idempotent sys opts env value io io' :
  environ sys !! env = Some value →
  list_report opts = false → list_ opts = false →
  let sep := String (pathsep sys) EmptyString in
  let kept := new_comps sys opts (Py.split (pathsep sys) value) in
  let line := Py.join sep kept in
  process sys opts env io = (Return, print line io) ∧
  process (with_environ sys (<[env := line]> (environ sys))) opts env io'
  = (Return, print line io') ∧
  NoDup (keys sys kept).
Proof.
  intros He HL Hl sep kept line. split_and!.
  - by apply process_shell_output.
  - rewrite (process_shell_output _ opts env line); [|apply lookup_insert_eq|done..].
    unfold new_comps. rewrite process_loop_with_environ.
    cbn [pathsep with_environ]. do 2 f_equal.
    apply resplit_new_comps.
  - apply new_comps_NoDup.
Qed.

Lemma shell_output_idempotent_witness :
  let sys := example_os {[ "PATH" := "/usr/bin:/usr/bin:/nonexistent" ]} in
  let line := "/usr/bin:/nonexistent" in
  process sys no_options "PATH" no_output = (Return, print line no_output) ∧
  process (with_environ sys (<[ "PATH" := line ]> (environ sys))) no_options
    "PATH" no_output
  = (Return, print line no_output) ∧
  NoDup (keys sys ["/usr/bin"; "/nonexistent"]).
Proof.
  intros sys line.
  pose proof (shell_output_idempotent sys no_options "PATH"
                "/usr/bin:/usr/bin:/nonexistent" no_output no_output
                eq_refl eq_refl eq_refl) as H.
  vm_compute in H. vm_compute. exact H.
Defined.

(** C6, as the specification words it, fails: the empty value of
    [PATH] splits into one component. *)
Lemma empty_value_as_stated_fails :
  ¬ empty_value_as_stated (example_os {[ "PATH" := EmptyString ]}).
Proof. unfold empty_value_as_stated. vm_compute. discriminate. Qed.

(** With [-l], an empty [PATH] lists one entry, the empty component. *)
Example empty_value_listed :
  process (example_os {[ "PATH" := EmptyString ]}) (flags true false false false)
    "PATH" no_output
  = (Return, print " 1 " no_output).
Proof. vm_compute. reflexivity. Qed.

(** C6: the empty value splits into one component, the empty one; on
    POSIX the empty component canonicalizes to the working directory,
    which [os.getcwd] gives in normal form. *)
Theorem empty_value_one_empty_component (sys : os) (m : Posix.machine) :
  Posix.normpath (Posix.getcwd m) = Posix.getcwd m →
  Py.split (pathsep sys) EmptyString = [EmptyString] ∧
  get_canon (Posix.to_os m) EmptyString = Posix.getcwd m.
Proof.
  intros Hn. split; [done|].
  unfold get_canon. cbn [path_abspath path_expanduser Posix.to_os].
  change (Posix.expanduser m EmptyString) with EmptyString.
  by apply posix_abspath_empty.
Qed.

Lemma empty_value_one_empty_component_witness :
  let m := example_machine {[ "PATH" := EmptyString ]} in
  Py.split (pathsep (Posix.to_os m)) EmptyString = [EmptyString] ∧
  get_canon (Posix.to_os m) EmptyString = "/work".
Proof.
  intros m. apply (empty_value_one_empty_component (Posix.to_os m) m).
  vm_compute. reflexivity.
Defined.

(** C7: a variable that is not in the environment, without [-s], makes
    [process] write the error message, which names the variable, to the
    standard error and nothing to the standard output, and raise
    [SystemExit] with code 1; [main] ends there with that code and
    does not process the variables after it. *)
Theorem missing_variable_is_fatal sys opts before env rest io0 io :
  environ sys !! env = None → silent opts = false →
  ENV_VARS opts = (before ++ env :: rest)%list →
  main_loop sys opts before io0 = (Return, io) →
  let message :=
    Py.esc +:+ "[31;1m" +:+ "ERROR:" +:+ "165:" +:+ Py.esc +:+ "[0;31m"
    +:+ " environment variable not defined: " +:+ env
    +:+ ", use -s to continue" +:+ Py.esc +:+ "[0m" +:+ Py.nl in
  let io' := {| stdout := stdout io; stderr := stderr io +:+ message |} in
  process sys opts env io = (SystemExit 1, io') ∧
  main sys opts io0 = (SystemExit 1, io') ∧
  exit_code (main sys opts io0).1 ≠ 0.
Proof.
  intros He Hs Hvars Hbefore message io'.
  assert (Hp : process sys opts env io = (SystemExit 1, io')).
  { unfold process, err. rewrite He, Hs. cbn [negb].
    unfold write_err. cbn [stdout stderr]. unfold io', message.
    do 2 f_equal. change (Py.str 165) with "165".
    rewrite !append_assoc. reflexivity. }
  assert (Hm : main sys opts io0 = (SystemExit 1, io')).
  { unfold main. rewrite Hvars. by eapply main_loop_stops. }
  split_and!; [done..|]. by rewrite Hm.
Qed.

Lemma missing_variable_is_fatal_witness :
  let sys := example_os {[ "PATH" := "/usr/bin" ]} in
  let opts := {| color := false; list_ := false; list_report := false;
                 silent := false; undefined := false;
                 ENV_VARS := ["PATH"; "MANPATH"; "PATH"] |} in
  main sys opts no_output
  = (SystemExit 1,
     {| stdout := "/usr/bin" +:+ Py.nl;
        stderr := Py.esc +:+ "[31;1mERROR:165:" +:+ Py.esc
                  +:+ "[0;31m environment variable not defined: MANPATH, use -s to continue"
                  +:+ Py.esc +:+ "[0m" +:+ Py.nl |}).
Proof.
  intros sys opts.
  pose proof (missing_variable_is_fatal sys opts ["PATH"] "MANPATH" ["PATH"]
                no_output (print "/usr/bin" no_output)
                eq_refl eq_refl eq_refl eq_refl) as (_ & H & _).
  vm_compute in H. vm_compute. exact H.
Defined.

(** C8: a variable that is not in the environment, with [-s], is
    processed as the empty list of components: the default mode prints
    an empty line, [-l] prints nothing, and [-L] prints the name, the
    key and the summary with the four counters at zero. *)
Theorem missing_variable_silent sys env io c l u vars :
  environ sys !! env = None →
  let opts list L :=
    {| color := c; list_ := list; list_report := L; silent := true;
       undefined := u; ENV_VARS := vars |} in
  process sys (opts false false) env io = (Return, print EmptyString io) ∧
  process sys (opts true false) env io = (Return, io) ∧
  process sys (opts l true) env io
  = (Return, print (report_summary 0 0 0 0 (report_palette (opts l true)))
               (print ("Name: " +:+ env) io)) ∧
  report_final sys (opts l true) [] (print ("Name: " +:+ env) io)
  = (report_init, print ("Name: " +:+ env) io).
Proof.
  intros He opts. unfold process. rewrite He. done.
Qed.

Lemma missing_variable_silent_witness :
  let sys := example_os ∅ in
  process sys (flags false false true false) "LD_LIBRARY_PATH" no_output
  = (Return, print EmptyString no_output) ∧
  process sys (flags true false true false) "LD_LIBRARY_PATH" no_output
  = (Return, no_output) ∧
  process sys (flags false true true false) "LD_LIBRARY_PATH" no_output
  = (Return,
     {| stdout := Py.join Py.nl [
          "Name: LD_LIBRARY_PATH";
          EmptyString;
          "Key:";
          "     ue   unique, exists";
          "     de   duplicate, exists";
          "     un   unique, does not exist";
          "     dn   duplicate, does not exist";
          EmptyString;
          "Summary:";
          "    Num Kept       :  0";
          "    Num Filtered   :  0";
          "    Num Duplicates :  0";
          "    Num Undefined  :  0";
          EmptyString ];
        stderr := EmptyString |}).
Proof.
  intros sys.
  pose proof (missing_variable_silent sys "LD_LIBRARY_PATH" no_output
                false false false [] eq_refl) as (H1 & H2 & H3 & _).
  split_and!; [exact H1|exact H2|].
  vm_compute in H3. vm_compute. exact H3.
Defined.

(** C9: without [-u], the components the default mode keeps have the
    canonical keys of the components it was given, no more and no
    fewer. *)
Theorem dedup_preserves_key_set sys opts comps :
  undefined opts = false →
  list_to_set (keys sys (new_comps sys opts comps))
  =@{gset string} list_to_set (keys sys comps).
Proof.
  intros Hu. unfold new_comps.
  rewrite process_loop_keys by (done || set_solver).
  rewrite process_loop_dom. set_solver.
Qed.

Lemma dedup_preserves_key_set_witness :
  let sys := example_os {[ "HOME" := "/home/u" ]} in
  let comps := ["~/bin"; "/nonexistent"; "/home/u/bin"; "/tmp/"; "/tmp"] in
  new_comps sys no_options comps = ["~/bin"; "/nonexistent"; "/tmp/"] ∧
  list_to_set (keys sys ["~/bin"; "/nonexistent"; "/tmp/"])
  =@{gset string} list_to_set (keys sys comps).
Proof.
  intros sys comps.
  assert (E : new_comps sys no_options comps = ["~/bin"; "/nonexistent"; "/tmp/"])
    by (vm_compute; reflexivity).
  split; [exact E|]. rewrite <- E.
  apply (dedup_preserves_key_set sys no_options comps). reflexivity.
Defined.

(** C10: [is_dup] answers yes exactly when the canonical key of the
    component is in the dictionary; after the call the key is in the
    dictionary and every entry it had is still there; so when a loop
    has visited a list, starting from the empty dictionary, the keys of
    the dictionary are the canonical keys of the list. *)
Theorem is_dup_seen_set_invariant sys opts (seen : gmap string bool) c comps io :
  ((is_dup sys seen c).1 = true ↔ get_canon sys c ∈ dom seen) ∧
  get_canon sys c ∈ dom (is_dup sys seen c).2 ∧
  seen ⊆ (is_dup sys seen c).2 ∧
  dom (process_loop sys opts comps (∅, [])).1 = list_to_set (keys sys comps) ∧
  dom (dups (report_final sys opts comps io).1) = list_to_set (keys sys comps).
Proof.
  split_and!.
  - apply is_dup_true.
  - rewrite is_dup_dom. set_solver.
  - apply is_dup_subseteq.
  - apply seen_after_dom.
  - unfold report_final. rewrite report_loop_dom. set_solver.
Qed.

(** ** What the renderers write *)

Lemma write_out_write_out a b io :
  write_out b (write_out a io) = write_out (a +:+ b) io.
Proof. unfold write_out. simpl. by rewrite append_assoc. Qed.

Lemma write_out_nil io : write_out EmptyString io = io.
Proof. destruct io. unfold write_out. simpl. by rewrite append_nil_r. Qed.

Lemma stderr_write_out a io : stderr (write_out a io) = stderr io.
Proof. done. Qed.

Lemma text_cons a parts : text (a :: parts) = a +:+ text parts.
Proof. done. Qed.

Lemma list_loop_text i comps io :
  list_loop i comps io
  = write_out (text (imap (λ j comp, list_line (i + j) comp) comps)) io.
Proof.
  revert i io. induction comps as [|c comps IH]; intros i io.
  - simpl. by rewrite write_out_nil.
  - cbn [list_loop]. rewrite IH.
    replace (print (Py.rjust 2 (Py.str i) +:+ " " +:+ c) io)
      with (write_out (list_line i c) io)
      by (unfold print, list_line; by rewrite !append_assoc).
    rewrite write_out_write_out, imap_cons, text_cons, Nat.add_0_r.
    do 3 f_equal. apply imap_ext. intros j x _. simpl. f_equal. lia.
Qed.

(** One turn of the loop of [report] writes the line of the entry. *)
Lemma report_iter_out sys opts p i c v io :
  (report_iter sys opts p i c (v, io)).2
  = write_out (report_line p i c ((is_dup sys (dups v) c).1, exists_ sys c)) io.
Proof.
  unfold report_iter, report_line.
  destruct (is_dup sys (dups v) c) as [[] seen'];
    destruct (exists_ sys c); cbn [fst snd];
    rewrite !write_out_write_out; f_equal;
    rewrite ?text_cons, ?append_assoc; cbn [text foldr];
    by rewrite ?append_nil_r.
Qed.

Lemma report_loop_text sys opts p pre rest i v io :
  dom (dups v) = list_to_set (keys sys pre) →
  (report_loop sys opts p i rest (v, io)).2
  = write_out (text (imap (λ j cd, report_line p (i + j) cd.1 cd.2)
                       (zip rest (classify_from sys pre rest)))) io.
Proof.
  revert pre i v io. induction rest as [|c rest IH]; intros pre i v io Hdom.
  - simpl. by rewrite write_out_nil.
  - rewrite classify_from_cons. cbn [report_loop zip zip_with].
    destruct (report_iter sys opts p i c (v, io)) as [v1 io1] eqn:E.
    pose proof (report_iter_vars sys opts p i c v io) as Hv.
    pose proof (report_iter_out sys opts p i c v io) as Ho.
    rewrite E in Hv, Ho. cbn zeta in Hv. simpl in Hv, Ho.
    rewrite (is_dup_decide sys _ pre) in Ho by done.
    rewrite (IH (pre ++ [c])%list).
    + rewrite Ho, write_out_write_out, imap_cons, text_cons.
      rewrite Nat.add_0_r. cbn [fst snd]. do 3 f_equal.
      apply imap_ext. intros j x _. simpl. f_equal. lia.
    + rewrite Hv. simpl. by apply is_dup_dom_snoc.
Qed.

(** [report] appends the text of the report to the standard output. *)
Lemma report_writes sys opts comps env io :
  report sys opts comps env io = write_out (report_text sys opts comps env) io.
Proof.
  unfold report.
  pose proof (report_loop_text sys opts (report_palette opts) [] comps 1
                report_init (print ("Name: " +:+ env) io)) as Ho.
  destruct (report_loop_counts sys opts (report_palette opts) [] comps 1
              report_init (print ("Name: " +:+ env) io))
    as (Hk & Hd & Hu & Hf); [set_solver|].
  rewrite classify_from_nil in *. cbn zeta in *.
  destruct (report_loop sys opts (report_palette opts) 1 comps
              (report_init, print ("Name: " +:+ env) io)) as [v io1].
  simpl in Ho, Hk, Hd, Hu, Hf. rewrite Ho by set_solver.
  rewrite Hk, Hd, Hu, Hf. unfold print.
  rewrite !write_out_write_out. f_equal.
  unfold report_text. cbn [text foldr].
  by rewrite ?append_assoc, ?append_nil_r.
Qed.

(** ** What [process] and [main] write *)

Lemma process_comps_writes sys opts env comps io :
  process_comps sys opts env comps io
  = (Return, write_out (process_text sys opts env comps) io).
Proof.
  unfold process_comps, process_text.
  destruct (list_report opts); [by rewrite report_writes|].
  destruct (process_loop sys opts comps (∅, [])) as [seen kept] eqn:E.
  destruct (list_ opts).
  - by rewrite list_loop_text.
  - unfold shell_line, new_comps, print. by rewrite E.
Qed.

(** A variable that is in the environment, or any variable with [-s]. *)
Lemma process_returns sys opts env io :
  silent opts = true ∨ is_Some (environ sys !! env) →
  process sys opts env io
  = (Return, write_out (process_text sys opts env (value_comps sys env)) io).
Proof.
  intros H. unfold process, value_comps.
  destruct (environ sys !! env) as [value|] eqn:E.
  - apply process_comps_writes.
  - destruct H as [-> | [? ?]]; [|done]. apply process_comps_writes.
Qed.

(** A variable that is not in the environment, without [-s]. *)
Lemma process_exits sys opts env io :
  environ sys !! env = None → silent opts = false →
  process sys opts env io = (SystemExit 1, write_err (error_text env) io).
Proof.
  intros He Hs. unfold process, err. rewrite He, Hs. cbn [negb].
  unfold write_err, error_text. cbn [stdout stderr].
  do 2 f_equal. change (Py.str 165) with "165".
  rewrite !append_assoc. reflexivity.
Qed.

Lemma process_cases sys opts env :
  (silent opts = true ∨ is_Some (environ sys !! env)) ∨
  (environ sys !! env = None ∧ silent opts = false).
Proof.
  destruct (silent opts); [by left; left|].
  destruct (environ sys !! env) eqn:E; [left; right; eauto|by right].
Qed.

Lemma main_loop_returns sys opts envs io :
  silent opts = true ∨ all_defined sys envs →
  main_loop sys opts envs io
  = (Return,
     write_out (text ((λ env, process_text sys opts env (value_comps sys env))
                        <$> envs)) io).
Proof.
  intros H. revert io. induction envs as [|env envs IH]; intros io.
  - simpl. by rewrite write_out_nil.
  - cbn [main_loop]. rewrite process_returns.
    + rewrite IH.
      * by rewrite write_out_write_out.
      * destruct H as [?|H]; [by left|right]. by inversion H.
    + destruct H as [?|H]; [by left|right]. by inversion H.
Qed.

(** ** Further properties of the renderers *)

(** X1: with [-l] and without [-L], [process] writes the components of
    the value as they are written, none removed, each on its line after
    its index from 1; the flags [-u], [-c] and [-s] and the path
    functions of the system play no part. *)
Theorem list_mode_lists_value sys sys' opts opts' env value io :
  environ sys !! env = Some value → environ sys' !! env = Some value →
  pathsep sys' = pathsep sys →
  list_report opts = false → list_ opts = true →
  list_report opts' = false → list_ opts' = true →
  process sys opts env io
  = (Return, write_out (list_text (Py.split (pathsep sys) value)) io) ∧
  process sys' opts' env io = process sys opts env io.
Proof.
  intros He He' Hsep HL Hl HL' Hl'.
  assert (H : ∀ s o, environ s !! env = Some value →
                list_report o = false → list_ o = true →
                process s o env io
                = (Return, write_out (list_text (Py.split (pathsep s) value)) io)).
  { intros s o Hs Ho1 Ho2. rewrite process_returns by (right; eauto).
    unfold process_text, value_comps. by rewrite Hs, Ho1, Ho2. }
  split; [by apply H|]. rewrite !H by done. by rewrite Hsep.
Qed.

Lemma list_mode_lists_value_witness :
  let sys := example_os {[ "PATH" := "/tmp:/nonexistent:/tmp" ]} in
  process sys (flags true false false false) "PATH" no_output
  = (Return, write_out (text [" 1 /tmp" +:+ Py.nl; " 2 /nonexistent" +:+ Py.nl;
                               " 3 /tmp" +:+ Py.nl]) no_output) ∧
  process sys (flags true false true true) "PATH" no_output
  = process sys (flags true false false false) "PATH" no_output.
Proof.
  intros sys.
  pose proof (list_mode_lists_value sys sys (flags true false false false)
                (flags true false true true) "PATH" "/tmp:/nonexistent:/tmp"
                no_output eq_refl eq_refl eq_refl eq_refl eq_refl eq_refl eq_refl)
    as [H1 H2].
  split; [|exact H2]. vm_compute in H1. vm_compute. exact H1.
Defined.

(** X2: with [-L], [process] writes the name of the variable, one line
    for every component of the value, in order, with the markers of its
    classification and the component as it is written, then the key and
    the four counters; the text is a function of the classification. *)
Theorem report_mode_text sys opts env value io :
  environ sys !! env = Some value → list_report opts = true →
  let comps := Py.split (pathsep sys) value in
  process sys opts env io
  = (Return, write_out (report_text sys opts comps env) io) ∧
  length (zip comps (classify sys comps)) = length comps.
Proof.
  intros He HL comps. split.
  - rewrite process_returns by (right; eauto).
    unfold process_text, value_comps. by rewrite He, HL.
  - rewrite length_zip_with, length_classify. lia.
Qed.

Lemma report_mode_text_witness :
  let sys := example_os {[ "PATH" := "/tmp:~/bin:/tmp/:/nonexistent" ]} in
  let opts := flags false true false false in
  process sys opts "PATH" no_output
  = (Return,
     write_out (report_text sys opts ["/tmp"; "~/bin"; "/tmp/"; "/nonexistent"]
                  "PATH") no_output) ∧
  text (imap (λ j cd, report_line (report_palette opts) (S j) cd.1 cd.2)
          (zip ["/tmp"; "~/bin"; "/tmp/"; "/nonexistent"]
             (classify sys ["/tmp"; "~/bin"; "/tmp/"; "/nonexistent"])))
  = text ["   1 ue /tmp" +:+ Py.nl; "   2 ue ~/bin" +:+ Py.nl;
          "   3 de /tmp/" +:+ Py.nl; "   4 un /nonexistent" +:+ Py.nl].
Proof.
  intros sys opts.
  pose proof (report_mode_text sys opts "PATH" "/tmp:~/bin:/tmp/:/nonexistent"
                no_output eq_refl eq_refl) as [H _].
  split; [|vm_compute; reflexivity].
  vm_compute in H. vm_compute. exact H.
Defined.

Lemma count_le_length {A} (P : A → Prop) `{!∀ x, Decision (P x)} (l : list A) :
  (count P l ≤ length l)%nat.
Proof. apply length_filter. Qed.

Lemma count_kept_complement (cls : list (bool * bool)) :
  count kept_rule cls + count classified_duplicate_missing cls = length cls.
Proof.
  induction cls as [|[d e] cls IH]; [done|].
  rewrite !count_cons. simpl.
  repeat case_decide;
    unfold kept_rule, classified_duplicate_missing in *; simpl in *;
    try lia; exfalso; destruct d, e; simpl in *; naive_solver.
Qed.

Lemma length_classify_from sys pre rest :
  length (classify_from sys pre rest) = length rest.
Proof. unfold classify_from. by rewrite length_imap. Qed.

Lemma first_not_duplicate sys c :
  bool_decide (get_canon sys c ∈ keys sys []) = false.
Proof. apply bool_decide_eq_false_2. set_solver. Qed.

(** X3: the counters of the report.  [numd] counts the duplicates and
    [numu] the missing entries; every entry is counted in [numk] except
    the entries that are duplicate and missing; the first entry is never
    a duplicate, so a report of at least one entry has [numk] at least 1
    and [numd] below the number of entries. *)
Theorem report_counter_accounting sys opts comps io :
  let v := (report_final sys opts comps io).1 in
  let cls := classify sys comps in
  numd v = count classified_duplicate cls ∧
  numu v = count classified_missing cls ∧
  numk v + count classified_duplicate_missing cls = length comps ∧
  (numd v ≤ length comps - 1)%nat ∧
  (min 1 (length comps) ≤ numk v)%nat ∧
  (numu v ≤ length comps)%nat.
Proof.
  intros v cls. unfold v, report_final.
  destruct (report_loop_counts sys opts (report_palette opts) [] comps 1
              report_init io) as (Hk & Hd & Hu & _); [set_solver|].
  rewrite classify_from_nil in *. cbn zeta in *.
  rewrite Hk, Hd, Hu. simpl. fold cls.
  assert (Hlen : length cls = length comps) by apply length_classify.
  split_and!; [done|done|by rewrite count_kept_complement|..].
  - unfold cls. destruct comps as [|c rest]; [done|].
    rewrite <- classify_from_nil, classify_from_cons, first_not_duplicate,
      count_cons.
    rewrite decide_False by (unfold classified_duplicate; simpl; tauto).
    pose proof (count_le_length classified_duplicate
                  (classify_from sys ([] ++ [c]) rest)) as Hle.
    rewrite length_classify_from in Hle. simpl in Hle |- *. lia.
  - unfold cls. destruct comps as [|c rest]; [simpl; lia|].
    rewrite <- classify_from_nil, classify_from_cons, first_not_duplicate,
      count_cons.
    rewrite decide_True; [simpl; lia|].
    unfold kept_rule. simpl. tauto.
  - rewrite <- Hlen. apply count_le_length.
Qed.

(** X4: [process] ends in [SystemExit] exactly for a variable that is
    not in the environment when [-s] is not given, and then with code
    1 and nothing written to the standard output; otherwise it returns
    and has written nothing to the standard error. *)
Theorem process_exits_iff sys opts env io :
  ((process sys opts env io).1 = SystemExit 1
   ↔ environ sys !! env = None ∧ silent opts = false) ∧
  ((process sys opts env io).1 = Return
   ↔ silent opts = true ∨ is_Some (environ sys !! env)) ∧
  ((process sys opts env io).1 = Return
   → stderr (process sys opts env io).2 = stderr io) ∧
  ((process sys opts env io).1 = SystemExit 1
   → stdout (process sys opts env io).2 = stdout io).
Proof.
  destruct (process_cases sys opts env) as [H|[He Hs]].
  - rewrite process_returns by done. simpl. split_and!; try done.
    split; [done|]. intros [He Hs]. destruct H as [H|[? H]]; congruence.
  - rewrite process_exits by done. simpl. split_and!; try done.
    split; [done|]. intros [H|[? H]]; congruence.
Qed.


(** ** Further properties of [main] *)

Lemma main_loop_exits sys opts envs io :
  silent opts = false → ¬ all_defined sys envs →
  (main_loop sys opts envs io).1 = SystemExit 1.
Proof.
  intros Hs. revert io. induction envs as [|env envs IH]; intros io Hnot.
  - destruct Hnot. constructor.
  - cbn [main_loop].
    destruct (environ sys !! env) as [value|] eqn:E.
    + rewrite process_returns by (right; eauto). apply IH.
      intros Hall. apply Hnot. constructor; [eauto|done].
    + by rewrite process_exits.
Qed.

(** X6: [main] returns, and the exit code is 0, exactly when [-s] is
    given or every variable named on the command line is in the
    environment; otherwise the exit code is 1. *)
Theorem main_exit_code sys opts io :
  ((main sys opts io).1 = Return
   ↔ silent opts = true ∨ all_defined sys (ENV_VARS opts)) ∧
  (exit_code (main sys opts io).1 = 0
   ↔ silent opts = true ∨ all_defined sys (ENV_VARS opts)) ∧
  (exit_code (main sys opts io).1 = 1
   ↔ silent opts = false ∧ ¬ all_defined sys (ENV_VARS opts)).
Proof.
  unfold main.
  destruct (silent opts) eqn:Hs.
  { rewrite main_loop_returns by (left; done). simpl. naive_solver. }
  destruct (decide (all_defined sys (ENV_VARS opts))) as [Hall|Hnot].
  - rewrite main_loop_returns by (right; done). simpl. naive_solver.
  - rewrite (main_loop_exits sys opts _ io Hs Hnot). simpl. naive_solver.
Qed.

(** X7: when [-s] is given or every variable is in the environment,
    [main] writes, in the order of the command line, what [process]
    writes for each variable alone; in the default mode that is one line
    for each variable, filtered with a dictionary of its own. *)
Theorem main_writes_each_variable sys opts io :
  silent opts = true ∨ all_defined sys (ENV_VARS opts) →
  main sys opts io
  = (Return,
     write_out (text ((λ env, process_text sys opts env (value_comps sys env))
                        <$> ENV_VARS opts)) io) ∧
  (list_report opts = false → list_ opts = false →
   main sys opts io
   = (Return,
      write_out (text ((λ env, shell_line sys opts (value_comps sys env))
                         <$> ENV_VARS opts)) io)).
Proof.
  intros H. unfold main. rewrite main_loop_returns by done.
  split; [done|]. intros HL Hl. do 3 f_equal.
  apply list_fmap_ext. intros _ env _. unfold process_text. by rewrite HL, Hl.
Qed.

Lemma main_writes_each_variable_witness :
  let sys := example_os {[ "PATH" := "/tmp:/usr/bin:/tmp" ]} in
  let opts := {| color := false; list_ := false; list_report := false;
                 silent := true; undefined := false;
                 ENV_VARS := ["PATH"; "MANPATH"; "PATH"] |} in
  main sys opts no_output
  = (Return,
     write_out (text ["/tmp:/usr/bin" +:+ Py.nl; Py.nl; "/tmp:/usr/bin" +:+ Py.nl])
       no_output).
Proof.
  intros sys opts.
  pose proof (main_writes_each_variable sys opts no_output (or_introl eq_refl))
    as [H _].
  vm_compute in H. vm_compute. exact H.
Defined.

(** X8: when the first variable that is not in the environment comes
    after variables that are, without [-s], [main] has written the text
    of the variables before it to the standard output and writes the
    error message of that variable to the standard error; nothing of
    the variables after it is written. *)
Theorem main_stops_at_first_missing sys opts before env rest io :
  silent opts = false → all_defined sys before →
  environ sys !! env = None →
  ENV_VARS opts = (before ++ env :: rest)%list →
  main sys opts io
  = (SystemExit 1,
     write_err (error_text env)
       (write_out (text ((λ e, process_text sys opts e (value_comps sys e))
                           <$> before)) io)).
Proof.
  intros Hs Hall He Hvars. unfold main. rewrite Hvars.
  eapply main_loop_stops.
  - apply main_loop_returns. by right.
  - by apply process_exits.
Qed.

Lemma main_stops_at_first_missing_witness :
  let sys := example_os {[ "PATH" := "/tmp:/tmp" ]} in
  let opts := {| color := false; list_ := false; list_report := false;
                 silent := false; undefined := false;
                 ENV_VARS := ["PATH"; "MANPATH"; "PATH"] |} in
  main sys opts no_output
  = (SystemExit 1,
     write_err (error_text "MANPATH") (write_out ("/tmp" +:+ Py.nl) no_output)).
Proof.
  intros sys opts.
  assert (Hall : all_defined sys ["PATH"]).
  { constructor; [|constructor]. vm_compute. eauto. }
  pose proof (main_stops_at_first_missing sys opts ["PATH"] "MANPATH" ["PATH"]
                no_output eq_refl Hall eq_refl eq_refl) as H.
  vm_compute in H. vm_compute. exact H.
Defined.

(** ** Further properties of the duplicate check and the filter *)

(** X9: [is_dup] stores [True] only; a call that answers yes leaves the
    dictionary as it was; and a second call, on any component with the
    key of the first, answers yes and leaves the dictionary as the
    first call left it. *)
Theorem is_dup_again sys (seen : gmap string bool) c c' :
  get_canon sys c' = get_canon sys c →
  is_dup sys (is_dup sys seen c).2 c' = (true, (is_dup sys seen c).2) ∧
  ((is_dup sys seen c).1 = true → (is_dup sys seen c).2 = seen) ∧
  (map_Forall (λ _ v, v = true) seen
   → map_Forall (λ _ v, v = true) (is_dup sys seen c).2).
Proof.
  intros Hkey. split_and!.
  - pose proof (is_dup_dom sys seen c) as Hd.
    assert (Hin : get_canon sys c' ∈ dom (is_dup sys seen c).2)
      by (rewrite Hd, Hkey; set_solver).
    apply elem_of_dom in Hin as [v Hv].
    unfold is_dup at 1. by rewrite Hv.
  - unfold is_dup. by destruct (seen !! get_canon sys c).
  - intros Hall. unfold is_dup.
    destruct (seen !! get_canon sys c); simpl; [done|].
    by apply map_Forall_insert_2.
Qed.

Lemma is_dup_again_witness :
  let sys := example_os {[ "HOME" := "/home/u" ]} in
  let seen := (is_dup sys ∅ "~/bin").2 in
  is_dup sys seen "/home/u/bin/" = (true, seen) ∧
  ((is_dup sys ∅ "~/bin").1 = true → seen = ∅) ∧
  (map_Forall (λ _ v, v = true) (∅ : gmap string bool)
   → map_Forall (λ _ v, v = true) seen).
Proof.
  intros sys seen.
  apply (is_dup_again sys ∅ "~/bin" "/home/u/bin/").
  vm_compute. reflexivity.
Defined.

Lemma process_loop_undefined sys o1 o2 comps seen acc :
  undefined o1 = false → undefined o2 = true →
  process_loop sys o2 comps (seen, filter (λ c, exists_ sys c = true) acc)
  = ((process_loop sys o1 comps (seen, acc)).1,
     filter (λ c, exists_ sys c = true) (process_loop sys o1 comps (seen, acc)).2).
Proof.
  intros H1 H2. revert seen acc.
  induction comps as [|c comps IH]; intros seen acc; [done|].
  cbn [process_loop]. rewrite H1, H2.
  destruct (is_dup sys seen c) as [[] seen']; [apply IH|]. simpl.
  destruct (exists_ sys c) eqn:E; simpl.
  - rewrite <- IH, filter_app, filter_cons_True by done. done.
  - rewrite <- IH, filter_app, filter_cons_False by (rewrite E; done).
    simpl. by rewrite app_nil_r.
Qed.

(** X10: the components kept with [-u] are the components kept without
    it that exist, in the same order: a missing component still hides
    the later components of its key. *)
Theorem undefined_filters_after_dedup sys o1 o2 comps :
  undefined o1 = false → undefined o2 = true →
  new_comps sys o2 comps
  = filter (λ c, exists_ sys c = true) (new_comps sys o1 comps) ∧
  new_comps sys o2 comps `sublist_of` new_comps sys o1 comps ∧
  seen_after sys o2 comps = seen_after sys o1 comps.
Proof.
  intros H1 H2.
  pose proof (process_loop_undefined sys o1 o2 comps ∅ [] H1 H2) as H.
  rewrite filter_nil in H.
  unfold new_comps, seen_after. rewrite H. simpl.
  split_and!; [done| apply sublist_filter |done].
Qed.

Lemma undefined_filters_after_dedup_witness :
  let sys := example_os ∅ in
  let comps := ["/nonexistent"; "/tmp"; "/nonexistent/"; "/tmp/"; "/usr/bin"] in
  new_comps sys (flags false false false false) comps
  = ["/nonexistent"; "/tmp"; "/usr/bin"] ∧
  new_comps sys (flags false false false true) comps = ["/tmp"; "/usr/bin"].
Proof.
  intros sys comps.
  pose proof (undefined_filters_after_dedup sys (flags false false false false)
                (flags false false false true) comps eq_refl eq_refl)
    as (H & _ & _).
  split; [vm_compute; reflexivity|].
  rewrite H. vm_compute. reflexivity.
Defined.

(** X11: without [-u] the default mode keeps one component for every
    distinct canonical key of the value, and the first component of the
    value stays the first. *)
Theorem one_component_per_key sys opts comps :
  undefined opts = false →
  length (new_comps sys opts comps)
  = size (list_to_set (keys sys comps) : gset string) ∧
  head (new_comps sys opts comps) = head comps.
Proof.
  intros Hu. split.
  - rewrite <- (length_fmap (get_canon sys)).
    change (get_canon sys <$> new_comps sys opts comps)
      with (keys sys (new_comps sys opts comps)).
    rewrite <- (size_list_to_set (C := gset string)) by apply new_comps_NoDup.
    f_equal. unfold new_comps.
    rewrite process_loop_keys by (done || set_solver).
    rewrite process_loop_dom. set_solver.
  - destruct comps as [|c rest]; [done|].
    unfold new_comps. cbn [process_loop].
    unfold is_dup. rewrite lookup_empty, Hu. simpl.
    destruct (process_loop_appends sys opts rest
                (<[get_canon sys c:=true]> ∅) [c]) as (kept & -> & _).
    done.
Qed.

Lemma one_component_per_key_witness :
  let sys := example_os {[ "HOME" := "/home/u" ]} in
  let comps := ["~/bin"; "/tmp"; "/home/u/bin"; "/tmp/"; "bin"; "/work/bin"] in
  length (new_comps sys no_options comps) = 3 ∧
  head (new_comps sys no_options comps) = Some "~/bin".
Proof.
  intros sys comps.
  pose proof (one_component_per_key sys no_options comps eq_refl) as [H1 H2].
  split; [|exact H2]. rewrite H1. vm_compute. reflexivity.
Defined.

(** X12: in the default mode a value whose components have distinct
    canonical keys and, with [-u], all exist, is printed as it is. *)
Theorem tidy_value_unchanged sys opts env value io :
  environ sys !! env = Some value →
  list_report opts = false → list_ opts = false →
  NoDup (keys sys (Py.split (pathsep sys) value)) →
  (undefined opts = true
   → Forall (λ c, exists_ sys c = true) (Py.split (pathsep sys) value)) →
  process sys opts env io = (Return, print value io).
Proof.
  intros He HL Hl Hnd Hex.
  rewrite (process_shell_output sys opts env value) by done.
  unfold new_comps. rewrite process_loop_keeps_all.
  - simpl. by rewrite PyFacts.join_split.
  - done.
  - intros x Hx. split; [set_solver|]. intros Hu.
    specialize (Hex Hu). rewrite Forall_forall in Hex. by apply Hex.
Qed.

Lemma tidy_value_unchanged_witness :
  let sys := example_os {[ "PATH" := "/usr/bin::/tmp" ]} in
  process sys (flags false false false true) "PATH" no_output
  = (Return, print "/usr/bin::/tmp" no_output).
Proof.
  intros sys.
  apply (tidy_value_unchanged sys (flags false false false true) "PATH"
           "/usr/bin::/tmp" no_output); try reflexivity.
  - apply (bool_decide_unpack _). vm_compute. exact I.
  - intros _. apply (bool_decide_unpack _). vm_compute. exact I.
Defined.

(** ** Further properties of the canonical form on POSIX *)

Lemma expanduser_no_tilde m p :
  Py.startswith "~" p = false → Posix.expanduser m p = p.
Proof.
  destruct p as [|c s]; [done|]. intros H.
  destruct c as [[] [] [] [] [] [] [] []]; try reflexivity.
  simpl in H. discriminate.
Qed.

Lemma rstrip_no_trailing c h :
  Py.endswith c h = false → Py.rstrip c h = h.
Proof.
  induction h as [|a s IH]; [done|]. intros H.
  destruct s as [|b s].
  - simpl in *. by rewrite H.
  - change (Py.endswith c (String a (String b s)))
      with (Py.endswith c (String b s)) in H.
    cbn [Py.rstrip]. cbn [Py.rstrip] in IH. rewrite (IH H). done.
Qed.

Lemma endswith_app c a p :
  p ≠ EmptyString → Py.endswith c (a +:+ p) = Py.endswith c p.
Proof.
  intros Hp. induction a as [|x a IH]; [done|].
  change (String x a +:+ p) with (String x (a +:+ p)).
  destruct (a +:+ p) as [|y s] eqn:E.
  - destruct a as [|z a]; [by destruct Hp|].
    change (String z (a +:+ p) = EmptyString) in E. discriminate.
  - rewrite <- IH. done.
Qed.

Lemma append_not_empty a b : a ≠ EmptyString → a +:+ b ≠ EmptyString.
Proof. by destruct a. Qed.

Lemma startswith_app p a b :
  a ≠ EmptyString → String.length p = 1 →
  Py.startswith p (a +:+ b) = Py.startswith p a.
Proof.
  intros Ha Hp. destruct a as [|x a]; [done|].
  destruct p as [|y [|z p]]; done.
Qed.

Lemma normpath_absolute path :
  Posix.isabs path = true → Posix.isabs (Posix.normpath path) = true.
Proof.
  intros H. unfold Posix.normpath.
  destruct path as [|c s]; [done|].
  change (String.eqb (String c s) EmptyString) with false. cbv iota.
  unfold Posix.isabs in H. rewrite H.
  by destruct (Py.startswith (Py.times Posix.sep 2) (String c s)
               && negb (Py.startswith (Py.times Posix.sep 3) (String c s))).
Qed.

(** X13: on POSIX, when the working directory is an absolute path, the
    canonical key of every component is an absolute path. *)
Theorem canonical_key_is_absolute m comp :
  Posix.isabs (Posix.getcwd m) = true →
  Posix.isabs (get_canon (Posix.to_os m) comp) = true.
Proof.
  intros Hcwd. unfold get_canon. cbn [path_abspath path_expanduser Posix.to_os].
  unfold Posix.abspath.
  destruct (Posix.isabs (Posix.expanduser m comp)) eqn:E; simpl.
  - by apply normpath_absolute.
  - apply normpath_absolute. unfold Posix.join.
    unfold Posix.isabs in E. change (Py.times Posix.sep 1) with "/" in E.
    rewrite E.
    destruct (Posix.getcwd m) as [|c s] eqn:Ec; [done|].
    unfold Posix.isabs in *.
    destruct (String.eqb (String c s) EmptyString || Py.endswith Posix.sep (String c s));
      by rewrite startswith_app.
Qed.

Lemma canonical_key_is_absolute_witness :
  Posix.isabs (get_canon (example_os ∅) "../x/./y") = true.
Proof.
  apply (canonical_key_is_absolute (example_machine ∅) "../x/./y").
  reflexivity.
Defined.

(** X14: on POSIX a separator after a component does not change its
    canonical key: [/usr/bin/] is a duplicate of [/usr/bin]. *)
Theorem trailing_separator_same_key m p :
  p ≠ EmptyString → Py.endswith Posix.sep p = false →
  Py.startswith "~" p = false →
  get_canon (Posix.to_os m) (p +:+ "/") = get_canon (Posix.to_os m) p ∧
  (is_dup (Posix.to_os m) (is_dup (Posix.to_os m) ∅ p).2 (p +:+ "/")).1 = true.
Proof.
  intros Hp He Ht.
  assert (Hkey : get_canon (Posix.to_os m) (p +:+ "/")
                 = get_canon (Posix.to_os m) p).
  { unfold get_canon. cbn [path_abspath path_expanduser Posix.to_os].
    rewrite !expanduser_no_tilde by (by rewrite ?startswith_app).
    unfold Posix.abspath, Posix.isabs.
    rewrite startswith_app by done.
    destruct (Py.startswith (Py.times Posix.sep 1) p) eqn:Ea; simpl.
    - by apply normpath_trailing_sep.
    - unfold Posix.join. change (Py.times Posix.sep 1) with "/" in Ea.
      rewrite startswith_app, Ea by done.
      destruct (String.eqb (Posix.getcwd m) EmptyString
                || Py.endswith Posix.sep (Posix.getcwd m)) eqn:Ec.
      + rewrite <- append_assoc. apply normpath_trailing_sep.
        * destruct (Posix.getcwd m); [done|discriminate].
        * by rewrite endswith_app.
      + rewrite <- !append_assoc. apply normpath_trailing_sep.
        * destruct (Posix.getcwd m); discriminate.
        * by rewrite endswith_app. }
  split; [done|].
  apply is_dup_true. rewrite is_dup_dom, Hkey. set_solver.
Qed.

Lemma trailing_separator_same_key_witness :
  get_canon (example_os ∅) "/usr/bin/" = get_canon (example_os ∅) "/usr/bin" ∧
  (is_dup (example_os ∅) (is_dup (example_os ∅) ∅ "/usr/bin").2 "/usr/bin/").1
  = true.
Proof.
  apply (trailing_separator_same_key (example_machine ∅) "/usr/bin");
    [discriminate|reflexivity|reflexivity].
Defined.

(** X15: on POSIX, with [HOME] set to a directory written without a
    separator at its end, a component [~/r] has the canonical key of
    the component [HOME/r]: the two are duplicates. *)
Theorem tilde_same_key_as_home m home r :
  Posix.env m !! "HOME" = Some home →
  home ≠ EmptyString → Py.endswith Posix.sep home = false →
  Py.startswith "~" home = false →
  Posix.expanduser m ("~/" +:+ r) = home +:+ "/" +:+ r ∧
  get_canon (Posix.to_os m) ("~/" +:+ r)
  = get_canon (Posix.to_os m) (home +:+ "/" +:+ r).
Proof.
  intros Henv Hh He Ht.
  assert (Hx : Posix.expanduser m ("~/" +:+ r) = home +:+ "/" +:+ r).
  { change ("~/" +:+ r) with (String "~" (String "/" r)).
    cbn [Posix.expanduser Posix.cut_at_sep].
    change (Ascii.eqb "/" Posix.sep) with true. cbv iota.
    change (String.eqb EmptyString EmptyString) with true. cbv iota.
    rewrite Henv, rstrip_no_trailing by done.
    destruct home as [|c s]; [done|]. done. }
  split; [done|].
  unfold get_canon. cbn [path_abspath path_expanduser Posix.to_os].
  rewrite Hx, (expanduser_no_tilde m (home +:+ "/" +:+ r)); [done|].
  by rewrite startswith_app.
Qed.

Lemma tilde_same_key_as_home_witness :
  let sys := example_os {[ "HOME" := "/home/u" ]} in
  get_canon sys "~/bin" = get_canon sys "/home/u/bin".
Proof.
  intros sys.
  apply (tilde_same_key_as_home (example_machine {[ "HOME" := "/home/u" ]})
           "/home/u" "bin"); [reflexivity|discriminate|reflexivity|reflexivity].
Defined.

(** ** The report against the default mode *)

Lemma survivors_count sys opts pre rest :
  length (filter (survives opts) (zip rest (classify_from sys pre rest)))
  + count classified_duplicate (classify_from sys pre rest)
  + (if undefined opts then count classified_missing (classify_from sys pre rest)
     else 0)
  = length rest
    + (if undefined opts
       then count classified_duplicate_missing (classify_from sys pre rest)
       else 0).
Proof.
  revert pre. induction rest as [|c rest IH]; intros pre.
  - simpl. unfold count. simpl. by destruct (undefined opts).
  - rewrite classify_from_cons. cbn [zip zip_with].
    rewrite filter_cons, !count_cons. specialize (IH (pre ++ [c])%list).
    destruct (bool_decide (get_canon sys c ∈ keys sys pre));
      destruct (exists_ sys c); destruct (undefined opts) eqn:Eu;
      repeat case_decide;
      unfold survives, classified_duplicate, classified_missing,
        classified_duplicate_missing in *; simpl in *; rewrite ?Eu in *;
      simpl in *; try lia; exfalso; naive_solver.
Qed.

(** X16: the counters of the report against the components the default
    mode drops.  Without [-u], [numf] and [numd] are both the number of
    components dropped.  With [-u], [numf] is the number dropped plus the
    number of entries that are duplicate and missing, so it is the
    number dropped exactly when no entry is both. *)
Theorem report_counts_dropped sys opts comps io :
  let v := (report_final sys opts comps io).1 in
  let dropped := length comps - length (new_comps sys opts comps) in
  (length (new_comps sys opts comps) ≤ length comps)%nat ∧
  numf v = dropped
           + (if undefined opts
              then count classified_duplicate_missing (classify sys comps)
              else 0) ∧
  (undefined opts = false → numd v = dropped).
Proof.
  intros v dropped. unfold v, dropped, report_final.
  destruct (report_loop_counts sys opts (report_palette opts) [] comps 1
              report_init io) as (_ & Hd & _ & Hf); [set_solver|].
  cbn zeta in *. rewrite Hf, Hd. simpl.
  pose proof (survivors_count sys opts [] comps) as Hc.
  pose proof (sublist_length _ _ (survivors_sublist sys opts comps)) as Hle.
  rewrite new_comps_survivors. unfold survivors in *.
  rewrite length_fmap in *.
  rewrite classify_from_nil in *.
  pose proof (count_le_length classified_duplicate_missing (classify sys comps)).
  pose proof (count_le_length classified_duplicate (classify sys comps)).
  pose proof (length_classify sys comps).
  pose proof (count_kept_complement (classify sys comps)).
  split_and!.
  - destruct (undefined opts); lia.
  - destruct (undefined opts); lia.
  - intros Hu. rewrite Hu in Hc. lia.
Qed.

Lemma keys_filter_exists sys (l1 l2 : list string) :
  list_to_set (keys sys l1) =@{gset string} list_to_set (keys sys l2) →
  list_to_set (keys sys (filter (λ c, exists_ sys c = true) l1))
  =@{gset string} list_to_set (keys sys (filter (λ c, exists_ sys c = true) l2)).
Proof.
  intros H.
  assert (Hhalf : ∀ a b : list string,
    list_to_set (keys sys a) =@{gset string} list_to_set (keys sys b) →
    ∀ k, k ∈ keys sys (filter (λ c, exists_ sys c = true) a) →
         k ∈ keys sys (filter (λ c, exists_ sys c = true) b)).
  { intros a b Hab k (x & -> & [Hx Hxa]%list_elem_of_filter)%list_elem_of_fmap.
    assert (Hk : get_canon sys x ∈ keys sys b).
    { apply (elem_of_list_to_set (C := gset string)). rewrite <- Hab.
      apply elem_of_list_to_set, list_elem_of_fmap. eauto. }
    apply list_elem_of_fmap in Hk as (y & Hy & Hyb).
    apply list_elem_of_fmap. exists y. split; [done|].
    apply list_elem_of_filter. split; [|done].
    unfold exists_ in *. by rewrite <- Hy. }
  apply set_eq. intros k. rewrite !elem_of_list_to_set.
  split; apply Hhalf; done.
Qed.

(** X17: with [-u] the canonical keys of the components the default
    mode keeps are the canonical keys of the components of the value
    that exist: an existing directory is never lost, in whatever way it
    is written. *)
Theorem undefined_keeps_existing_keys sys opts comps :
  undefined opts = true →
  list_to_set (keys sys (new_comps sys opts comps))
  =@{gset string}
  list_to_set (keys sys (filter (λ c, exists_ sys c = true) comps)) ∧
  Forall (λ c, exists_ sys c = true) (new_comps sys opts comps).
Proof.
  intros Hu. split.
  - set (o1 := {| color := color opts; list_ := list_ opts;
                  list_report := list_report opts; silent := silent opts;
                  undefined := false; ENV_VARS := ENV_VARS opts |}).
    pose proof (process_loop_undefined sys o1 opts comps ∅ [] eq_refl Hu) as H.
    rewrite filter_nil in H. unfold new_comps at 1. rewrite H. simpl.
    apply keys_filter_exists.
    rewrite process_loop_keys by (done || set_solver).
    rewrite process_loop_dom. set_solver.
  - apply Forall_forall. intros x [_ Hx]%new_comps_elem. by apply Hx.
Qed.

Lemma undefined_keeps_existing_keys_witness :
  let sys := example_os {[ "HOME" := "/home/u" ]} in
  let comps := ["/nonexistent"; "/home/u/bin/"; "/tmp"; "~/bin"; "/nonexistent"] in
  new_comps sys (flags false false false true) comps = ["/home/u/bin/"; "/tmp"] ∧
  list_to_set (keys sys ["/home/u/bin/"; "/tmp"])
  =@{gset string} list_to_set (keys sys ["/home/u/bin/"; "/tmp"; "~/bin"]).
Proof.
  intros sys comps.
  pose proof (undefined_keeps_existing_keys sys (flags false false false true)
                comps eq_refl) as [H _].
  assert (E : new_comps sys (flags false false false true) comps
              = ["/home/u/bin/"; "/tmp"]) by (vm_compute; reflexivity).
  split; [exact E|]. rewrite E in H.
  assert (F : filter (λ c, exists_ sys c = true) comps
              = ["/home/u/bin/"; "/tmp"; "~/bin"]) by (vm_compute; reflexivity).
  rewrite F in H. exact H.
Defined.
